(** * Skateside/template: a shallow embedding of the template engine

    The development follows [src/template.js] (the engine) and the
    utility library it calls ([util], kept in [src/README.md]).

    Modelling conventions.
    - The engine reaches the library through the object [util] only, and
      [util] holds the members the library gives it ([utility] below).  A
      call of a member it does not hold is a call of undefined: it throws.
    - The host of the program is an argument of the definitions that
      depend on it ([host]): the global variable [string], which [setup]
      reads, and the names the prototype chains answer to.
    - JavaScript strings are [string]s of 8-bit code units.
    - JavaScript numbers are restricted to the integers ([Z]); the numeral
      grammar recognised by [parseFloat] and [ToNumber] is the signed decimal
      integer one.  Fractions, exponents and hexadecimal numerals are outside
      the model, and so are the rounding and the exponent notation of
      integers of magnitude 2^53 and more: a statement that prints or reads
      a number says which numbers it is about.
    - Objects and arrays carry a reference tag, used by [===] only.  Own
      properties are kept in enumeration order in an association list.  The
      data of a template holds no function.
    - A thrown exception is an explicit [Throw] result; the message of an
      error the engine raises by itself (a TypeError on reading a property
      of null, on calling what is no function) stands for the engine's. *)

From stdpp Require Import gmap.
From Stdlib Require Import String Ascii List ZArith Lia Bool.
From Stdlib Require Import DecimalString DecimalNat.
Import ListNotations.
Local Open Scope string_scope.
Set Warnings "-register-all".

(* ===================================================================== *)
(** * Regular expressions                                                 *)
(* ===================================================================== *)

(** The engine's patterns are JavaScript regular expression literals.  They
    are kept as syntax trees and run by a backtracking matcher that follows
    the ECMAScript matching rules (ordered alternatives, greedy and lazy
    quantifiers, capture groups, back references, look-ahead). *)

Module Regex.

Inductive regex : Type :=
| Empty : regex                                   (* (?:)            *)
| Chr : (ascii -> bool) -> regex                  (* one character   *)
| Bol : regex                                     (* ^               *)
| Eol : regex                                     (* $               *)
| Seq : regex -> regex -> regex
| Alt : regex -> regex -> regex
| Rep : bool -> nat -> option nat -> regex -> regex  (* greedy, min, max *)
| Grp : nat -> regex -> regex                     (* capture group n *)
| Bref : nat -> regex                             (* \n              *)
| Look : bool -> regex -> regex.                  (* (?=r) and (?!r) *)

(** Matcher state: index in the input, remaining input, captures. *)
Record mstate : Type := MState {
  pos : nat;
  rest : string;
  caps : list (nat * string)
}.

Fixpoint cap_get (n : nat) (cs : list (nat * string)) : option string :=
  match cs with
  | [] => None
  | (i, s) :: cs' => if Nat.eqb i n then Some s else cap_get n cs'
  end.

Definition cap_del (ns : list nat) (cs : list (nat * string))
  : list (nat * string) :=
  filter (fun c => negb (existsb (Nat.eqb (fst c)) ns)) cs.

Definition cap_set (n : nat) (s : string) (cs : list (nat * string))
  : list (nat * string) :=
  (n, s) :: cap_del [n] cs.

Fixpoint groups (r : regex) : list nat :=
  match r with
  | Empty | Chr _ | Bol | Eol | Bref _ => []
  | Seq a b | Alt a b => (groups a ++ groups b)%list
  | Rep _ _ _ a | Look _ a => groups a
  | Grp n a => n :: groups a
  end.

(** [skip n s] is [s.substr(n)] and [take n s] is [s.substr(0, n)]. *)
Fixpoint skip (n : nat) (s : string) : string :=
  match n, s with
  | S n', String _ s' => skip n' s'
  | _, _ => s
  end.

Fixpoint take (n : nat) (s : string) : string :=
  match n, s with
  | S n', String c s' => String c (take n' s')
  | _, _ => EmptyString
  end.

Fixpoint strip_prefix (p s : string) : option string :=
  match p, s with
  | EmptyString, _ => Some s
  | String a p', String b s' =>
      if Ascii.eqb a b then strip_prefix p' s' else None
  | String _ _, EmptyString => None
  end.

Definition cont : Type := mstate -> option mstate.

Definition dec_max (hi : option nat) : option nat :=
  match hi with Some h => Some (Nat.pred h) | None => None end.

Definition max_is_zero (hi : option nat) : bool :=
  match hi with Some 0 => true | _ => false end.

(** One quantified atom, after ECMAScript's RepeatMatcher.  [atom] matches
    the quantified sub-pattern once.  An iteration that matched the empty
    string once the minimum is reached is refused, so every further
    iteration consumes input or lowers [lo]: [fuel] bounds their number. *)
Fixpoint repeat (atom : cont -> cont) (inner : list nat) (greedy : bool)
  (fuel lo : nat) (hi : option nat) (k : cont) (x : mstate)
  : option mstate :=
  match fuel with
  | 0 => None
  | S fuel' =>
      if max_is_zero hi then k x
      else
        let d : cont := fun y =>
          if Nat.eqb lo 0 && Nat.eqb (pos y) (pos x) then None
          else repeat atom inner greedy fuel' (Nat.pred lo) (dec_max hi) k y in
        let xr := MState (pos x) (rest x) (cap_del inner (caps x)) in
        if negb (Nat.eqb lo 0) then atom d xr
        else if greedy then
          match atom d xr with
          | Some z => Some z
          | None => k x
          end
        else
          match k x with
          | Some z => Some z
          | None => atom d xr
          end
  end.

Fixpoint run (r : regex) (k : cont) (x : mstate) {struct r} : option mstate :=
  match r with
  | Empty => k x
  | Chr p =>
      match rest x with
      | String c s' =>
          if p c then k (MState (S (pos x)) s' (caps x)) else None
      | EmptyString => None
      end
  | Bol => if Nat.eqb (pos x) 0 then k x else None
  | Eol => match rest x with EmptyString => k x | _ => None end
  | Seq a b => run a (run b k) x
  | Alt a b =>
      match run a k x with
      | Some z => Some z
      | None => run b k x
      end
  | Rep greedy lo hi a =>
      repeat (run a) (groups a) greedy (S (lo + String.length (rest x)))
        lo hi k x
  | Grp n a =>
      run a (fun y =>
        k (MState (pos y) (rest y)
             (cap_set n (take (pos y - pos x) (rest x)) (caps y)))) x
  | Bref n =>
      match cap_get n (caps x) with
      | None => k x
      | Some s =>
          match strip_prefix s (rest x) with
          | Some s' => k (MState (pos x + String.length s) s' (caps x))
          | None => None
          end
      end
  | Look positive a =>
      match run a Some x with
      | Some y =>
          if positive then k (MState (pos x) (rest x) (caps y)) else None
      | None => if positive then None else k x
      end
  end.

(** The result of [String.prototype.match] without the global flag:
    [index], [match[0]] and the captures. *)
Record rmatch : Type := RMatch {
  index : nat;
  whole : string;
  captures : list (nat * string)
}.

Definition group (m : rmatch) (n : nat) : option string :=
  cap_get n (captures m).

(** Leftmost match: start positions are tried from [i] on, [s] being the
    input from position [i]. *)
Fixpoint search_from (r : regex) (i : nat) (s : string) : option rmatch :=
  match run r Some (MState i s []) with
  | Some y => Some (RMatch i (take (pos y - i) s) (caps y))
  | None =>
      match s with
      | String _ s' => search_from r (S i) s'
      | EmptyString => None
      end
  end.

Definition exec (r : regex) (s : string) : option rmatch :=
  search_from r 0 s.

(** ** Character classes and abbreviations *)

Definition lit (c : ascii) : regex := Chr (Ascii.eqb c).

Fixpoint lits (s : string) : regex :=
  match s with
  | EmptyString => Empty
  | String c EmptyString => lit c
  | String c s' => Seq (lit c) (lits s')
  end.

Definition code (c : ascii) : nat := nat_of_ascii c.

Definition is_digit (c : ascii) : bool :=
  Nat.leb 48 (code c) && Nat.leb (code c) 57.

(** [\w] *)
Definition is_word (c : ascii) : bool :=
  is_digit c
  || (Nat.leb 65 (code c) && Nat.leb (code c) 90)
  || (Nat.leb 97 (code c) && Nat.leb (code c) 122)
  || Nat.eqb (code c) 95.

(** [\s] *)
Definition is_space (c : ascii) : bool :=
  (Nat.leb 9 (code c) && Nat.leb (code c) 13)
  || Nat.eqb (code c) 32 || Nat.eqb (code c) 160.

(** [.] matches anything but a line terminator. *)
Definition is_dot (c : ascii) : bool :=
  negb (Nat.eqb (code c) 10 || Nat.eqb (code c) 13).

Definition any_char (c : ascii) : bool := true.

Definition one_of (s : string) (c : ascii) : bool :=
  existsb (Ascii.eqb c) (list_ascii_of_string s).

Definition none_of (s : string) (c : ascii) : bool := negb (one_of s c).

Definition star (r : regex) : regex := Rep true 0 None r.
Definition plus (r : regex) : regex := Rep true 1 None r.
Definition opt (r : regex) : regex := Rep true 0 (Some 1) r.
Definition lazy_star (r : regex) : regex := Rep false 0 None r.

Fixpoint seqs (rs : list regex) : regex :=
  match rs with
  | [] => Empty
  | [r] => r
  | r :: rs' => Seq r (seqs rs')
  end.

Definition CR : ascii := ascii_of_nat 13.
Definition LF : ascii := ascii_of_nat 10.

End Regex.
Import Regex.

(* ===================================================================== *)
(** * JavaScript values                                                   *)
(* ===================================================================== *)

Definition ref : Type := nat.

Inductive value : Type :=
| VUndef : value
| VNull : value
| VBool : bool -> value
| VNum : Z -> value
| VStr : string -> value
| VArr : ref -> list value -> value
| VObj : ref -> list (string * value) -> value.

Inductive error : Type :=
| TypeError : string -> error
| SyntaxError : string -> error
| ReferenceError : string -> error.

Inductive result (A : Type) : Type :=
| Ok : A -> result A
| Throw : error -> result A.
Arguments Ok {A} _.
Arguments Throw {A} _.

Definition bind {A B : Type} (m : result A) (f : A -> result B) : result B :=
  match m with
  | Ok a => f a
  | Throw e => Throw e
  end.

Notation "'try' x ':=' m 'in' k" := (bind m (fun x => k))
  (at level 10, x name, m at level 100, k at level 200).

Definition string_of_Z (n : Z) : string := NilZero.string_of_int (Z.to_int n).

Fixpoint join (sep : string) (l : list string) : string :=
  match l with
  | [] => ""
  | [s] => s
  | s :: l' => s ++ sep ++ join sep l'
  end.

(** [ToString].  A number is printed with all its digits, as JavaScript
    prints the integers of magnitude below 10^21 (it turns to the exponent
    notation from there on). *)
Fixpoint to_string (v : value) : string :=
  match v with
  | VUndef => "undefined"
  | VNull => "null"
  | VBool true => "true"
  | VBool false => "false"
  | VNum n => string_of_Z n
  | VStr s => s
  | VArr _ l =>
      join ","
        (map (fun e => match e with
                       | VUndef | VNull => ""
                       | _ => to_string e
                       end) l)
  | VObj _ _ => "[object Object]"
  end.

(** ** Numerals

    A numeral is a signed run of decimal digits, and its value is the
    integer it writes.  JavaScript reads more numerals than these (a
    fraction, an exponent, a hexadecimal numeral, a lone trailing or
    leading dot) and rounds what it reads to a double: the definitions
    agree with it on the decimal integers of magnitude below 2^53, and a
    statement that reads a numeral is made for those. *)

Definition digit_val (c : ascii) : Z := Z.of_nat (code c) - 48.

Fixpoint digits_prefix (s : string) : string :=
  match s with
  | String c s' => if is_digit c then String c (digits_prefix s') else ""
  | EmptyString => ""
  end.

Fixpoint digits_val (acc : Z) (s : string) : Z :=
  match s with
  | String c s' => digits_val (10 * acc + digit_val c) s'
  | EmptyString => acc
  end.

Fixpoint trim_left (s : string) : string :=
  match s with
  | String c s' => if is_space c then trim_left s' else s
  | EmptyString => ""
  end.

Fixpoint rev_string (acc s : string) : string :=
  match s with
  | String c s' => rev_string (String c acc) s'
  | EmptyString => acc
  end.

Definition trim (s : string) : string :=
  rev_string "" (trim_left (rev_string "" (trim_left s))).

(** The longest signed-decimal prefix of [s]: its value and what follows;
    [None] when [s] does not start with a numeral. *)
Definition numeral_prefix (s : string) : option (Z * string) :=
  let '(neg, body) :=
    match s with
    | String "-" s' => (true, s')
    | String "+" s' => (false, s')
    | _ => (false, s)
    end in
  let ds := digits_prefix body in
  match ds with
  | EmptyString => None
  | _ =>
      let n := digits_val 0 ds in
      Some (if neg then (- n)%Z else n, skip (String.length ds) body)
  end.

(** [None] stands for NaN. *)
Definition parseFloat (v : value) : option Z :=
  option_map fst (numeral_prefix (trim_left (to_string v))).

Definition string_to_number (s : string) : option Z :=
  match trim s with
  | EmptyString => Some 0%Z
  | t =>
      match numeral_prefix t with
      | Some (n, EmptyString) => Some n
      | _ => None
      end
  end.

(** [ToPrimitive]: arrays and objects become their string. *)
Definition to_primitive (v : value) : value :=
  match v with
  | VArr _ _ | VObj _ _ => VStr (to_string v)
  | _ => v
  end.

(** [ToNumber]. *)
Definition to_number (v : value) : option Z :=
  match to_primitive v with
  | VUndef => None
  | VNull => Some 0%Z
  | VBool b => Some (if b then 1 else 0)%Z
  | VNum n => Some n
  | VStr s => string_to_number s
  | _ => None
  end.

Definition isFinite (v : value) : bool :=
  match to_number v with Some _ => true | None => false end.

(** util.Number.isNumeric *)
Definition isNumeric (number : value) : bool :=
  match parseFloat number with
  | Some _ => isFinite number
  | None => false
  end.

(** ** Properties *)

Definition string_of_nat (n : nat) : string :=
  NilZero.string_of_uint (Nat.to_uint n).

(** An array index: a canonical decimal numeral. *)
Definition parse_index (k : string) : option nat :=
  match NilZero.uint_of_string k with
  | Some d =>
      let n := Nat.of_uint d in
      if String.eqb (string_of_nat n) k then Some n else None
  | None => None
  end.

Fixpoint assoc (k : string) (ps : list (string * value)) : option value :=
  match ps with
  | [] => None
  | (k', v) :: ps' => if String.eqb k' k then Some v else assoc k ps'
  end.

Fixpoint chars (s : string) : list value :=
  match s with
  | String c s' => VStr (String c "") :: chars s'
  | EmptyString => []
  end.

(** The own property [k] of [v], when [v] has it. *)
Definition own_property (v : value) (k : string) : option value :=
  match v with
  | VObj _ ps => assoc k ps
  | VArr _ l =>
      if String.eqb k "length" then Some (VNum (Z.of_nat (length l)))
      else match parse_index k with
           | Some i => nth_error l i
           | None => None
           end
  | VStr s =>
      if String.eqb k "length" then Some (VNum (Z.of_nat (String.length s)))
      else match parse_index k with
           | Some i => nth_error (chars s) i
           | None => None
           end
  | _ => None
  end.

Definition is_nullish (v : value) : bool :=
  match v with
  | VUndef | VNull => true
  | _ => false
  end.

(** ** The host

    The engine runs in a host that decides two things the source leaves
    open: what the global variable [string] holds, if it is defined at
    all ([setup] reads it), and which names the prototype chain of a value
    answers to beyond the value's own properties ([Object.prototype] and
    the like, read by [data[dataKey]] and by [types[type]]).  The members
    of the host's prototypes are functions and prototype objects, as the
    standard library's are: the model names them and never looks inside. *)
Record host : Type := Host {
  string_variable : option value;
  inherited : value -> string -> bool
}.

(** What a property read gives: a value of the model, or a member of the
    host's library reached through the prototype chain. *)
Inductive fetched : Type :=
| Held : value -> fetched
| Library : string -> fetched.

(** [object[key]]: reading a property of null or undefined throws; a key
    the object does not own is looked up along its prototype chain. *)
Definition get (h : host) (object : value) (key : string) : result fetched :=
  if is_nullish object then
    Throw (TypeError ("Cannot read property " ++ key))
  else
    Ok (match own_property object key with
        | Some v => Held v
        | None =>
            if inherited h object key then Library key else Held VUndef
        end).

(** [object[key] = v] on a plain object: an existing entry is overwritten
    in place, a new one is appended. *)
Fixpoint assoc_set (k : string) (v : value) (ps : list (string * value))
  : list (string * value) :=
  match ps with
  | [] => [(k, v)]
  | (k', v') :: ps' =>
      if String.eqb k' k then (k, v) :: ps' else (k', v') :: assoc_set k v ps'
  end.

(** ** Operators *)

Definition truthy (v : value) : bool :=
  match v with
  | VUndef | VNull => false
  | VBool b => b
  | VNum n => negb (Z.eqb n 0)
  | VStr s => negb (String.eqb s "")
  | VArr _ _ | VObj _ _ => true
  end.

(** Code-unit order on strings. *)
Fixpoint string_ltb (a b : string) : bool :=
  match a, b with
  | _, EmptyString => false
  | EmptyString, String _ _ => true
  | String x a', String y b' =>
      if Nat.ltb (code x) (code y) then true
      else if Nat.ltb (code y) (code x) then false
      else string_ltb a' b'
  end.

(** Abstract relational comparison [x < y]; [None] is "undefined". *)
Definition less_than (x y : value) : option bool :=
  match to_primitive x, to_primitive y with
  | VStr a, VStr b => Some (string_ltb a b)
  | px, py =>
      match to_number px, to_number py with
      | Some a, Some b => Some (Z.ltb a b)
      | _, _ => None
      end
  end.

Definition js_lt (x y : value) : bool :=
  match less_than x y with Some b => b | None => false end.
Definition js_gt (x y : value) : bool :=
  match less_than y x with Some b => b | None => false end.
Definition js_le (x y : value) : bool :=
  match less_than y x with Some b => negb b | None => false end.
Definition js_ge (x y : value) : bool :=
  match less_than x y with Some b => negb b | None => false end.

(** [x === y]; objects and arrays are compared by reference. *)
Definition strict_eq (x y : value) : bool :=
  match x, y with
  | VUndef, VUndef => true
  | VNull, VNull => true
  | VBool a, VBool b => Bool.eqb a b
  | VNum a, VNum b => Z.eqb a b
  | VStr a, VStr b => String.eqb a b
  | VArr r _, VArr r' _ => Nat.eqb r r'
  | VObj r _, VObj r' _ => Nat.eqb r r'
  | _, _ => false
  end.

(* ===================================================================== *)
(** * The utility library ([util])                                        *)
(* ===================================================================== *)

Definition DQ : ascii := ascii_of_nat 34.
Definition BSLASH : ascii := ascii_of_nat 92.

Definition is_empty (s : string) : bool :=
  match s with EmptyString => true | _ => false end.

(** All the matches of a pattern carrying the global flag, as
    [String.prototype.replace] visits them: after an empty match the search
    resumes one character further.  [s] is the input from index [i]. *)
Fixpoint match_all (r : regex) (fuel i : nat) (s : string) : list rmatch :=
  match fuel with
  | 0 => []
  | S fuel' =>
      match search_from r i s with
      | None => []
      | Some m =>
          let e := index m + String.length (whole m) in
          let next := if is_empty (whole m) then S e else e in
          if Nat.ltb (String.length s) (next - i) then [m]
          else m :: match_all r fuel' next (skip (next - i) s)
      end
  end.

(** The input from index [i], with every match replaced by [f]'s answer. *)
Fixpoint splice (f : rmatch -> string) (ms : list rmatch) (i : nat)
  (s : string) : string :=
  match ms with
  | [] => s
  | m :: ms' =>
      let e := index m + String.length (whole m) in
      take (index m - i) s ++ f m ++ splice f ms' e (skip (e - i) s)
  end.

Definition replace_all (r : regex) (f : rmatch -> string) (s : string)
  : string :=
  splice f (match_all r (S (S (String.length s))) 0 s) 0 s.

(** util.String.interpret *)
Definition interpretString (v : value) : string :=
  match v with
  | VStr s => s
  | VNull | VUndef => ""
  | _ => to_string v
  end.

(** util.String.tokenise: the [while (str.length)] loop.  Every turn that
    does not end the loop removes at least one character, so [fuel] is the
    length of the input. *)
Fixpoint tokenise_loop (fuel : nat) (pattern : regex)
  (handler : rmatch -> value) (str : string) : option (list string) :=
  match str with
  | EmptyString => Some []
  | _ =>
      match fuel with
      | 0 => None
      | S fuel' =>
          match exec pattern str with
          | None => Some [str]
          | Some m =>
              if Nat.eqb (String.length (whole m)) 0 then Some [str]
              else
                match tokenise_loop fuel' pattern handler
                        (skip (index m + String.length (whole m)) str) with
                | Some parts =>
                    Some (take (index m) str
                            :: interpretString (handler m) :: parts)
                | None => None
                end
          end
      end
  end.

Definition first_entry (matches : rmatch) : value := VStr (whole matches).

Definition tokenise (text : value) (pattern : regex)
  (handler : rmatch -> value) : list string :=
  let str := interpretString text in
  match tokenise_loop (String.length str) pattern handler str with
  | Some parts => parts
  | None => []
  end.

(** util.String.toPath *)
Definition PATH_PART : regex :=
  Alt (plus (Chr (none_of ".[]")))
   (Alt
     (seqs
        [lit "[";
         Alt
           (Grp 1 (seqs [opt (lit "-"); plus (Chr is_digit);
                         opt (Seq (lit ".") (plus (Chr is_digit)))]))
           (seqs
              [Grp 2 (Chr (fun c => Ascii.eqb c DQ || Ascii.eqb c "'"));
               Grp 3 (lazy_star
                        (Alt (Seq (Look false (Bref 2))
                                  (Chr (fun c => negb (Ascii.eqb c BSLASH))))
                             (Seq (lit BSLASH) (Chr is_dot))));
               Bref 2]);
         lit "]"])
     (Look true
        (Seq (Alt (lit ".") (lits "[]"))
             (Alt (lit ".") (Alt (lits "[]") Eol))))).

(** [/\\(\\)?/g] *)
Definition ESCAPE : regex := Seq (lit BSLASH) (opt (Grp 1 (lit BSLASH))).

Definition or_empty (o : option string) : string :=
  match o with Some s => s | None => "" end.

Definition path_key (m : rmatch) : string :=
  if negb (is_empty (or_empty (group m 2))) then
    replace_all ESCAPE (fun e => or_empty (group e 1)) (or_empty (group m 3))
  else if negb (is_empty (or_empty (group m 1))) then or_empty (group m 1)
  else whole m.

Definition stringToPath (paths : value) : list string :=
  let str := interpretString paths in
  ((match str with String "." _ => [""] | _ => [] end)
   ++ map path_key
        (match_all PATH_PART (S (S (String.length str))) 0 str))%list.

(** util.Object.access: [every] stops at the first undefined. *)
Fixpoint access_walk (object : value) (path : list string) : value :=
  match path with
  | [] => object
  | property :: path' =>
      let object' :=
        match (if is_nullish object then None
               else own_property object property) with
        | Some v => v
        | None => VUndef
        end in
      match object' with
      | VUndef => VUndef
      | _ => access_walk object' path'
      end
  end.

Definition access (object : value) (path : string) : value :=
  access_walk object (stringToPath (VStr path)).

(** util.String.supplant *)
Definition PLACEHOLDER : regex :=
  seqs [Grp 1 (Alt Bol (Alt (Chr is_dot) (Alt (lit CR) (lit LF))));
        Grp 2 (seqs [lits "${"; Grp 3 (lazy_star (Chr is_dot)); lit "}"])].

Definition is_string_or_number (v : value) : bool :=
  match v with
  | VStr _ | VNum _ => true
  | _ => false
  end.

Definition supplant_handler (replacements : value) (matches : rmatch)
  : value :=
  let prefix := or_empty (group matches 1) in
  let whole := or_empty (group matches 2) in
  let value := access replacements (or_empty (group matches 3)) in
  let replacement :=
    if is_string_or_number value then to_string value else whole in
  if String.eqb prefix (String BSLASH "") then VStr whole
  else VStr (prefix ++ replacement).

Definition supplant (text : value) (replacements : value) : string :=
  let text := interpretString text in
  let replacements :=
    if truthy replacements then replacements else VObj 0 [] in
  join "" (tokenise (VStr text) PLACEHOLDER (supplant_handler replacements)).

(** util.Object.pair: [Object.keys] throws on null and undefined, and a
    number or a boolean has no own keys. *)
Definition objectPair (object : value) : result (list (value * value)) :=
  match object with
  | VUndef | VNull =>
      Throw (TypeError "Cannot convert undefined or null to object")
  | VObj _ ps => Ok (map (fun p => (VStr (fst p), snd p)) ps)
  | VArr _ l =>
      Ok (combine (map (fun i => VStr (string_of_nat i)) (seq 0 (length l))) l)
  | VStr s =>
      Ok (combine
            (map (fun i => VStr (string_of_nat i)) (seq 0 (String.length s)))
            (chars s))
  | VBool _ | VNum _ => Ok []
  end.

Definition arrayMaxLength : Z := (2 ^ 32 - 1)%Z.

Definition is_array (v : value) : bool :=
  match v with VArr _ _ => true | _ => false end.

(** [typeof array[Symbol.iterator] === "function"]: arrays and strings. *)
Definition has_iterator (v : value) : bool :=
  match v with VArr _ _ | VStr _ => true | _ => false end.

Definition length_of (v : value) : value :=
  match own_property v "length" with Some n => n | None => VUndef end.

(** util.Array.isArrayLike *)
Definition isArrayLike (array : value) : bool :=
  negb (is_nullish array)
  && (is_array array
      || (isNumeric (length_of array)
          && js_ge (length_of array) (VNum 0)
          && js_lt (length_of array) (VNum arrayMaxLength))
      || has_iterator array).

(** util.Array.map on an array-like value: the entries of the indices the
    value has, in index order (an index it lacks leaves a hole, which the
    later [forEach] skips). *)
Definition arrayMap {A : Type} (array : value) (handler : value -> nat -> A)
  : list A :=
  let len :=
    match to_number (length_of array) with
    | Some n => Z.to_nat n
    | None => 0
    end in
  flat_map (fun i =>
              match own_property array (string_of_nat i) with
              | Some v => [handler v i]
              | None => []
              end) (seq 0 len).

(** util.Function.curry: the arguments given first, each undefined one
    replaced by the next inner argument ([shift] of an empty array is
    undefined), and the inner arguments that remain. *)
Fixpoint fill (args innerArgs : list value) : list value * list value :=
  match args with
  | [] => ([], innerArgs)
  | VUndef :: args' =>
      match innerArgs with
      | x :: innerArgs' =>
          let '(allArgs, others) := fill args' innerArgs' in (x :: allArgs, others)
      | [] =>
          let '(allArgs, others) := fill args' [] in (VUndef :: allArgs, others)
      end
  | arg :: args' =>
      let '(allArgs, others) := fill args' innerArgs in (arg :: allArgs, others)
  end.

Definition curry {A : Type} (func : list value -> A) (args : list value)
  : list value -> A :=
  fun innerArgs =>
    let '(allArgs, others) := fill args innerArgs in
    func (allArgs ++ others)%list.

(** ** Object.assign *)

Definition tag_of (v : value) : ref :=
  match v with
  | VObj r _ | VArr r _ => r
  | _ => 0
  end.

(** The own enumerable properties [Object.assign] copies. *)
Definition enumerable (v : value) : list (string * value) :=
  match v with
  | VObj _ ps => ps
  | VArr _ l => combine (map string_of_nat (seq 0 (length l))) l
  | VStr s => combine (map string_of_nat (seq 0 (String.length s))) (chars s)
  | _ => []
  end.

(** [assign({}, data)].  The copy is a new object, which no value of the
    data refers to: its tag is only ever compared with itself, and the copy
    keeps the tag of the object it copies. *)
Definition assign_empty (data : value) : value :=
  VObj (tag_of data)
    (fold_left (fun ps p => assoc_set (fst p) (snd p) ps) (enumerable data) []).

(** [assign(source, ...objects)]: every object in turn writes its own
    enumerable properties into the source.  [assign_empty data] is the
    object [assign [] [data]] makes.  A key the source does not hold is
    appended to the list; the place JavaScript gives an integer-like key in
    the enumeration (before the others, in ascending order) is not
    modelled. *)
Definition assign (source : list (string * value)) (objects : list value)
  : list (string * value) :=
  fold_left
    (fun src o =>
       fold_left (fun ps p => assoc_set (fst p) (snd p) ps)
         (enumerable o) src)
    objects source.

(** ** What [util] exports

    The module returns [utility], whose five namespaces start empty and
    are filled by the five calls of [assign] at the end of the module.
    Those members are what [template.js] reaches through [util]; the
    module's functions [assign] and [isArrayLike] are given to no
    namespace. *)
Definition utility : list (string * list string) :=
  [("Array", ["map"; "invoke"]);
   ("Function", ["curry"]);
   ("Number", ["isNumeric"]);
   ("Object", ["access"; "pair"]);
   ("String", ["interpret"; "toPath"; "supplant"; "tokenise"])].

Definition has_member (namespace name : string) : bool :=
  existsb (fun entry =>
             String.eqb (fst entry) namespace
             && existsb (String.eqb name) (snd entry)) utility.

(** A call of [util.namespace.name], [f] being the function of the module
    that goes by that name: a member [utility] lacks is undefined, and
    calling it throws. *)
Definition member {A : Type} (namespace name : string) (f : A) : result A :=
  if has_member namespace name then Ok f
  else Throw (TypeError ("util." ++ namespace ++ "." ++ name
                         ++ " is not a function")).

(* ===================================================================== *)
(** * The template engine ([template.js])                                 *)
(* ===================================================================== *)

Definition PREFIX : regex :=
  Grp 1 (Alt Bol (Alt (Chr is_dot) (Alt (lit CR) (lit LF)))).

Definition BRANCH_PART : regex :=
  seqs [PREFIX; lits "${#"; plus (Chr (none_of "}")); lit "}"].

Definition PROCESS_BRANCH : regex :=
  seqs [PREFIX; lits "${#"; Grp 2 (plus (Chr is_word)); plus (Chr is_space);
        Grp 3 (plus (Chr (none_of "}"))); lit "}"; Eol].

(** ** The [tests] table *)

Definition tests (test : string) : option (value -> value -> bool) :=
  if String.eqb test "<" then Some js_lt
  else if String.eqb test ">" then Some js_gt
  else if String.eqb test "<=" then Some js_le
  else if String.eqb test ">=" then Some js_ge
  else if String.eqb test "!==" then Some (fun d v => negb (strict_eq d v))
  else if String.eqb test "===" then Some strict_eq
  else if String.eqb test "truthy" then Some (fun d _ => truthy d)
  else if String.eqb test "!=" then Some (fun d v => negb (strict_eq d v))
  else if String.eqb test "==" then Some strict_eq
  else None.

(** ** decode *)

(** A decoded operand: a literal value, or the curried [access] that waits
    for the data. *)
Inductive decoded : Type :=
| Literal : value -> decoded
| Deferred : string -> decoded.

(** [/^(Q)?([\s\S]+)?\1$/], where Q is the class of the three quote
    characters (single, double, backtick). *)
Definition QUOTED : regex :=
  seqs [Bol;
        opt (Grp 1 (Chr (fun c => Ascii.eqb c DQ || Ascii.eqb c "'"
                                  || Ascii.eqb c "`")));
        opt (Grp 2 (plus (Chr any_char)));
        Bref 1; Eol].

Definition decode (value : string) : result decoded :=
  if String.eqb value "null" then Ok (Literal VNull)
  else if String.eqb value "undefined" then Ok (Literal VUndef)
  else if String.eqb value "false" || String.eqb value "true" then
    Ok (Literal (VBool (String.eqb value "true")))
  else
    match exec QUOTED value with
    | None => Throw (TypeError "Cannot read property 1 of null")
    | Some parts =>
        match group parts 1 with
        | Some _ =>
            Ok (Literal (match group parts 2 with
                         | Some inner => VStr inner
                         | None => VUndef
                         end))
        | None =>
            if isNumeric (VStr value) then
              Ok (Literal (match to_number (VStr value) with
                           | Some n => VNum n
                           | None => VUndef
                           end))
            else Ok (Deferred value)
        end
    end.

(** ** Branches *)

Record if_spec : Type := IfSpec {
  negation : option string;
  propertyPath : string;
  test : string;
  operand : string
}.

Record each_spec : Type := EachSpec {
  dataKey : string;
  iterationKey : option string;
  iterationValue : string
}.

Inductive branch : Type :=
| Text : string -> branch
| If : if_spec -> list branch -> branch
| Each : each_spec -> list branch -> branch.

(** [/\${#if\s+(!)?([\S]+)(\s*([<>!=]{1,3})\s*([\S]+))?\}/] *)
Definition IF_OPEN : regex :=
  seqs [lits "${#if"; plus (Chr is_space);
        opt (Grp 1 (lit "!"));
        Grp 2 (plus (Chr (fun c => negb (is_space c))));
        opt (Grp 3 (seqs [star (Chr is_space);
                          Grp 4 (Rep true 1 (Some 3) (Chr (one_of "<>!=")));
                          star (Chr is_space);
                          Grp 5 (plus (Chr (fun c => negb (is_space c))))]));
        lit "}"].

(** [/\$\{#each\s+([\w]+)\s+as(\s([\w]+)\s+to)?\s+([\w]+)\}/] *)
Definition EACH_OPEN : regex :=
  seqs [lits "${#each"; plus (Chr is_space);
        Grp 1 (plus (Chr is_word)); plus (Chr is_space); lits "as";
        opt (Grp 2 (seqs [Chr is_space; Grp 3 (plus (Chr is_word));
                          plus (Chr is_space); lits "to"]));
        plus (Chr is_space); Grp 4 (plus (Chr is_word)); lit "}"].

Definition nonempty (o : option string) : option string :=
  match o with
  | Some EmptyString => None
  | _ => o
  end.

(** The parsing half of makeIfBranch: the match and its four aliases. *)
Definition if_parts (condition : string) : result if_spec :=
  match exec IF_OPEN condition with
  | None => Throw (TypeError "Cannot read property 1 of null")
  | Some parts =>
      Ok (IfSpec (group parts 1)
                 (or_empty (group parts 2))
                 (match nonempty (group parts 4) with
                  | Some t => t
                  | None => "truthy"
                  end)
                 (or_empty (group parts 5)))
  end.

(** The parsing half of makeEachBranch: the match and its three aliases. *)
Definition each_parts (condition : string) : result each_spec :=
  match exec EACH_OPEN condition with
  | None => Throw (TypeError "Cannot read property 1 of null")
  | Some parts =>
      Ok (EachSpec (or_empty (group parts 1))
                   (group parts 3)
                   (or_empty (group parts 4)))
  end.

(** makeIfBranch and makeEachBranch: once the marker is read, the branch
    object is put together by [util.Object.assign], which is called on the
    way. *)
Definition makeIfBranch (condition : string) : result if_spec :=
  try spec := if_parts condition in
  try _ := member "Object" "assign" assign in
  Ok spec.

Definition makeEachBranch (condition : string) : result each_spec :=
  try spec := each_parts condition in
  try _ := member "Object" "assign" assign in
  Ok spec.

(** ** The object store

    Rendering writes into objects ([branchData] in the [each] branch), so
    the data objects handed to [render] live in a store and are named by
    their location.  [Object.assign({}, data)] allocates a new cell. *)

Abbreviation loc := nat.
Abbreviation store := (list value).

Definition load (st : store) (l : loc) : value :=
  match st !! l with
  | Some v => v
  | None => VUndef
  end.

Definition alloc (st : store) (v : value) : store * loc :=
  ((st ++ [v])%list, length st).

(** [object[key] = v] on the object stored at [l].  The key [__proto__]
    goes to the setter the object inherits, which makes no own property
    (it changes the prototype of the object, which the model does not
    follow). *)
Definition store_set (st : store) (l : loc) (key : string) (v : value)
  : store :=
  if String.eqb key "__proto__" then st
  else
    match st !! l with
    | Some (VObj r ps) => <[l := VObj r (assoc_set key v ps)]> st
    | _ => st
    end.

(** ** Rendering *)

(** template.js, [pair].  A member of the host's library, a function or a
    prototype object, has no entry to pair. *)
Definition pair (object : fetched) : result (list (value * value)) :=
  try isArrayLike' := member "Array" "isArrayLike" isArrayLike in
  match object with
  | Held v =>
      if isArrayLike' v then
        Ok (arrayMap v (fun value key => (VNum (Z.of_nat key), value)))
      else objectPair v
  | Library _ => Ok []
  end.

Definition is_bang (o : option string) : bool :=
  match o with
  | Some s => String.eqb s "!"
  | None => false
  end.

(** The [shouldRender] flag of an [if] branch. *)
Definition shouldRender (c : if_spec) (data : value) : result bool :=
  let property := access data (propertyPath c) in
  try decoded := decode (operand c) in
  match tests (test c) with
  | Some f =>
      Ok (f (if is_bang (negation c) then VBool (negb (truthy property))
             else property)
            (match decoded with
             | Deferred path => access data path
             | Literal v => v
             end))
  | None => Ok true
  end.

Section Loops.
Context {A : Type}.
Variable body : A -> store -> store * result string.

(** [util.Array.invoke(branches, "render", data).join("")] *)
Fixpoint invoke (l : list A) (st : store) : store * result string :=
  match l with
  | [] => (st, Ok "")
  | a :: l' =>
      match body a st with
      | (st1, Ok s) =>
          match invoke l' st1 with
          | (st2, Ok s') => (st2, Ok (s ++ s'))
          | (st2, Throw e) => (st2, Throw e)
          end
      | (st1, Throw e) => (st1, Throw e)
      end
  end.
End Loops.

Section ForEach.
Context {A : Type}.
Variable body : A -> store -> string -> store * result string.

(** [forEach] with the accumulator [rendered]. *)
Fixpoint for_each (l : list A) (st : store) (rendered : string)
  : store * result string :=
  match l with
  | [] => (st, Ok rendered)
  | a :: l' =>
      match body a st rendered with
      | (st1, Ok rendered1) => for_each l' st1 rendered1
      | (st1, Throw e) => (st1, Throw e)
      end
  end.
End ForEach.

(** The two assignments made before a child of an [each] is rendered. *)
Definition bind_pair (c : each_spec) (p : value * value) (st : store)
  (branchData : loc) : store :=
  let st1 := store_set st branchData (iterationValue c) (snd p) in
  match iterationKey c with
  | Some k => store_set st1 branchData k (fst p)
  | None => st1
  end.

Fixpoint render (h : host) (b : branch) (st : store) (data : loc) {struct b}
  : store * result string :=
  match b with
  | Text text => (st, Ok (supplant (VStr text) (load st data)))
  | If c branches =>
      match shouldRender c (load st data) with
      | Ok true => invoke (fun b' st' => render h b' st' data) branches st
      | Ok false => (st, Ok "")
      | Throw e => (st, Throw e)
      end
  | Each c branches =>
      match (try collection := get h (load st data) (dataKey c) in
             pair collection) with
      | Throw e => (st, Throw e)
      | Ok datum =>
          match member "Object" "assign" assign_empty with
          | Throw e => (st, Throw e)
          | Ok assign' =>
              let '(st0, branchData) := alloc st (assign' (load st data)) in
              for_each
                (fun p =>
                   for_each
                     (fun b' st' rendered =>
                        match render h b' (bind_pair c p st' branchData)
                                branchData with
                        | (st'', Ok s) => (st'', Ok (rendered ++ s))
                        | (st'', Throw e) => (st'', Throw e)
                        end) branches)
                datum st0 ""
          end
      end
  end.

(** baseBranch.render *)
Definition render_base (h : host) (branches : list branch) (st : store)
  (data : loc) : store * result string :=
  invoke (fun b st' => render h b st' data) branches st.

(** ** The tree builder

    [currentBranch] and the chain of [getParent] links are kept as a stack
    of open branches, innermost first; the empty stack is the undefined
    [currentBranch] left by closing the root.  A branch is handed to its
    parent when it is closed (the source hands it over when it is opened
    and keeps filling it through the shared reference: the trees agree as
    soon as the branch is closed, and an open branch is never rendered). *)

Inductive kind : Type :=
| KBase : kind
| KIf : if_spec -> kind
| KEach : each_spec -> kind.

Record open_branch : Type := Open {
  okind : kind;
  obranches : list branch
}.

Definition tree : Type := list open_branch.

Definition type_of (k : kind) : string :=
  match k with
  | KBase => "base"
  | KIf _ => "if"
  | KEach _ => "each"
  end.

(** tree.init *)
Definition init : tree := [Open KBase []].

(** tree.addBranch *)
Definition addBranch (t : tree) (b : branch) : result tree :=
  match t with
  | Open k bs :: parents => Ok (Open k (bs ++ [b]) :: parents)
  | [] => Throw (TypeError "Cannot read property addBranch of undefined")
  end.

(** The [types] table of makeTree, applied to the marker.  [types.text]
    makes a text branch, which has no [setParent] to call.  A name the
    table does not own is looked up along its prototype chain, and what the
    host's library answers with is not a branch constructor: the call, or
    the call of [setParent] on what it returns, throws a TypeError (with a
    message of the engine's; most members return a value that has no
    [setParent]). *)
Definition types (h : host) (type content : string) : result kind :=
  if String.eqb type "each" then
    try c := makeEachBranch content in Ok (KEach c)
  else if String.eqb type "if" then
    try c := makeIfBranch content in Ok (KIf c)
  else if String.eqb type "text" then
    Throw (TypeError "newBranch.setParent is not a function")
  else if inherited h (VObj 0 []) type then
    Throw (TypeError "newBranch.setParent is not a function")
  else Throw (TypeError ("Unknown branch type " ++ type)).

(** tree.openBranch *)
Definition openBranch (h : host) (t : tree) (type content : string)
  : result tree :=
  try k := types h type content in
  match t with
  | [] => Throw (TypeError "Cannot read property addBranch of undefined")
  | _ => Ok (Open k [] :: t)
  end.

Definition close (o : open_branch) : list branch :=
  match okind o with
  | KBase => []
  | KIf c => [If c (obranches o)]
  | KEach c => [Each c (obranches o)]
  end.

(** tree.closeBranch *)
Definition closeBranch (t : tree) (type : string) : result tree :=
  match t with
  | [] => Throw (TypeError "Cannot read property type of undefined")
  | current :: parents =>
      if String.eqb (type_of (okind current)) type then
        Ok (match parents with
            | Open k bs :: up => Open k (bs ++ close current) :: up
            | [] => []
            end)
      else
        Throw (SyntaxError ("Expecting type " ++ type_of (okind current)
                            ++ " but got " ++ type))
  end.

(** tree.render *)
Definition tree_render (h : host) (t : tree) (st : store) (data : loc)
  : store * result string :=
  match t with
  | [] => (st, Throw (TypeError "Cannot read property type of undefined"))
  | current :: _ =>
      match okind current with
      | KBase => render_base h (obranches current) st data
      | k => (st, Throw (SyntaxError ("Unclosed " ++ type_of k ++ " branch")))
      end
  end.

(** The body of the [forEach] in [setup]. *)
Definition setup_part (h : host) (t : tree) (part : string) : result tree :=
  match exec PROCESS_BRANCH part with
  | Some m =>
      if negb (String.eqb (or_empty (group m 1)) (String BSLASH "")) then
        if String.eqb (or_empty (group m 2)) "end" then
          closeBranch t (or_empty (group m 3))
        else openBranch h t (or_empty (group m 2)) (whole m)
      else addBranch t (Text part)
  | None => addBranch t (Text part)
  end.

Fixpoint setup_parts (h : host) (t : tree) (parts : list string)
  : result tree :=
  match parts with
  | [] => Ok t
  | part :: parts' =>
      try t' := setup_part h t part in setup_parts h t' parts'
  end.

(** [setup].  The text it tokenises is what the variable [string] holds:
    no declaration of that name is in scope of [setup] (the parameter of
    [template] is not), so the name is the host's global variable, and
    reading it throws when the host has none. *)
Definition setup (h : host) : result tree :=
  match string_variable h with
  | None => Throw (ReferenceError "string is not defined")
  | Some text => setup_parts h init (tokenise text BRANCH_PART first_entry)
  end.

(** [template(string)]: the argument is bound and not read; the compiled
    template is the tree [setup] leaves.

    The function is what the variable [template] holds once the module has
    run, and the definitions above are those of a call of it.  The module
    itself does not run to its end ([module_body] below): it assigns the
    function to the variable and then calls [util.Object.assign] to attach
    the constructors to it, which throws, so the function is neither
    extended nor frozen. *)
Definition template (h : host) (argument : value) : result tree := setup h.

(** The statements of the module after the assignment of [template]:
    [util.Object.assign(template, {...})], then the return. *)
Definition module_body : result unit :=
  try _ := member "Object" "assign" assign in Ok tt.

(** [template(argument).render(data)], the data being stored at [data]. *)
Definition run_template (h : host) (argument : value) (st : store)
  (data : loc) : result (store * result string) :=
  try t := template h argument in Ok (tree_render h t st data).

(* ===================================================================== *)
(** * Vocabulary of the statements                                       *)
(* ===================================================================== *)

(** [reach x y]: the matcher went from [x] to [y] by consuming a prefix of
    the remaining input, and counted it in [pos]. *)
Definition reach (x y : mstate) : Prop :=
  exists c, rest x = c ++ rest y /\ pos y = pos x + String.length c.

(** A matcher is sound when a success comes from its continuation, called
    on a state reached from the start state. *)
Definition sound (m : cont -> cont) : Prop :=
  forall k x z, m k x = Some z -> exists y, reach x y /\ k y = Some z.

(** A matcher respects reachability when it only calls its continuation on
    states reached from its start state. *)
Definition respects (m : cont -> cont) : Prop :=
  forall k k' x, (forall y, reach x y -> k y = k' y) -> m k x = m k' x.

(** The class of the three quote characters of [QUOTED]. *)
Definition is_quote (c : ascii) : bool :=
  Ascii.eqb c DQ || Ascii.eqb c "'" || Ascii.eqb c "`".

(** The host of the README: the variable [string] holds the template
    text. *)
Definition with_string (text : string) (chain : value -> string -> bool)
  : host :=
  Host (Some (VStr text)) chain.

(** A chain for examples: every value but null and undefined answers to
    the names of [Object.prototype]. *)
Definition Object_prototype (v : value) (key : string) : bool :=
  negb (is_nullish v)
  && existsb (String.eqb key)
       ["constructor"; "hasOwnProperty"; "isPrototypeOf";
        "propertyIsEnumerable"; "toLocaleString"; "toString"; "valueOf";
        "__proto__"; "__defineGetter__"; "__defineSetter__";
        "__lookupGetter__"; "__lookupSetter__"].

Definition is_text (b : branch) : bool :=
  match b with
  | Text _ => true
  | _ => false
  end.

(** The builder holds nothing (the root was closed), or the root alone
    with text branches only. *)
Definition flat (t : tree) : bool :=
  match t with
  | [] => true
  | [Open KBase branches] => forallb is_text branches
  | _ => false
  end.

(** The three structural errors of the specification: an unknown branch
    kind, a mismatched close, an unclosed branch. *)
Definition structural (e : error) : Prop :=
  (exists type, e = TypeError ("Unknown branch type " ++ type))
  \/ (exists branchType type,
        e = SyntaxError ("Expecting type " ++ branchType ++ " but got "
                         ++ type))
  \/ (exists type, e = SyntaxError ("Unclosed " ++ type ++ " branch")).

(** The integers a number holds exactly, with both its neighbours. *)
Definition safe (n : Z) : bool := (Z.abs n <? 2 ^ 53)%Z.

(** A string, or a number the engine prints digit by digit. *)
Definition printed (v : value) : bool :=
  match v with
  | VStr _ => true
  | VNum n => safe n
  | _ => false
  end.

Fixpoint concat_results (rs : list (result string)) : result string :=
  match rs with
  | [] => Ok ""
  | Ok s :: rs' =>
      match concat_results rs' with
      | Ok s' => Ok (s ++ s')
      | Throw e => Throw e
      end
  | Throw e :: _ => Throw e
  end.

Definition appended (r : string) (res : result string) : result string :=
  match res with
  | Ok s => Ok (r ++ s)
  | Throw e => Throw e
  end.

(** The elements of an array with their indices, from [i] on. *)
Fixpoint indexed (i : nat) (l : list value) : list (value * value) :=
  match l with
  | [] => []
  | v :: l' => (VNum (Z.of_nat i), v) :: indexed (S i) l'
  end.

Fixpoint all_chars (P : ascii -> bool) (s : string) : bool :=
  match s with
  | EmptyString => true
  | String c s' => P c && all_chars P s'
  end.

(** [s] is empty or starts with a character outside the class. *)
Definition stops (P : ascii -> bool) (s : string) : bool :=
  match s with
  | EmptyString => true
  | String c _ => negb (P c)
  end.

Definition not_dollar (c : ascii) : bool := negb (Ascii.eqb c "$").

Definition nonblank (c : ascii) : bool := negb (is_space c).

(** The class [[<>!=]] of [IF_OPEN]. *)
Definition operator (c : ascii) : bool := one_of "<>!=" c.

(** A name: at least one character, all of them word characters. *)
Definition is_name (s : string) : bool :=
  negb (is_empty s) && all_chars is_word s.

(** White space: at least one character. *)
Definition is_blank (s : string) : bool :=
  negb (is_empty s) && all_chars is_space s.

(** A token: at least one character, none of them white space. *)
Definition is_token (s : string) : bool :=
  negb (is_empty s) && all_chars nonblank s.

(** The tokens [decode] answers with a constant. *)
Definition keyword (token : string) : bool :=
  String.eqb token "null" || String.eqb token "undefined"
  || String.eqb token "false" || String.eqb token "true".

(** The characters of a plain path key: anything but a dot or a bracket. *)
Definition key_char (c : ascii) : bool := none_of ".[]" c.

(** A plain key: at least one character, all of them key characters. *)
Definition plain_key (k : string) : bool :=
  negb (is_empty k) && all_chars key_char k.

(** The characters of a placeholder's name: what [.] matches, the closing
    brace apart. *)
Definition name_char (c : ascii) : bool :=
  is_dot c && negb (Ascii.eqb c "}").

(** The characters of the text around a placeholder: no dollar sign and no
    backslash. *)
Definition text_char (c : ascii) : bool :=
  not_dollar c && negb (Ascii.eqb c BSLASH).

(** The placeholder proper in [PLACEHOLDER], after the context character. *)
Definition HOLE : regex :=
  Grp 2 (Seq (lits "${") (Seq (Grp 3 (lazy_star (Chr is_dot))) (lit "}"))).

(** The captures of a placeholder named [k] that follows [g]. *)
Definition hole_caps (g k : string) : list (nat * string) :=
  cap_set 2 ("${" ++ k ++ "}") (cap_set 3 k (cap_set 1 g [])).

(* ===================================================================== *)
(** * Properties of the matcher                                           *)
(* ===================================================================== *)

Section StringFacts.

Lemma append_cons (x : ascii) (a b : string) :
  String x a ++ b = String x (a ++ b).
Proof. reflexivity. Qed.

Lemma append_nil_l (a : string) : "" ++ a = a.
Proof. reflexivity. Qed.

Lemma append_assoc (a b c : string) : (a ++ b) ++ c = a ++ b ++ c.
Proof.
  induction a as [|x a IH]; [reflexivity|].
  rewrite !append_cons. now f_equal.
Qed.

Lemma append_nil_r (a : string) : a ++ "" = a.
Proof.
  induction a as [|x a IH]; [reflexivity|].
  rewrite append_cons. now f_equal.
Qed.

Lemma length_append (a b : string) :
  String.length (a ++ b) = String.length a + String.length b.
Proof.
  induction a as [|x a IH]; [reflexivity|].
  rewrite append_cons. simpl. now f_equal.
Qed.

Lemma take_append (a b : string) : take (String.length a) (a ++ b) = a.
Proof.
  induction a as [|x a IH]; [now destruct b|].
  rewrite append_cons. simpl. now f_equal.
Qed.

Lemma skip_append (a b : string) : skip (String.length a) (a ++ b) = b.
Proof.
  induction a as [|x a IH]; [now destruct b|].
  rewrite append_cons. simpl. exact IH.
Qed.

Lemma take_skip (n : nat) (s : string) : take n s ++ skip n s = s.
Proof.
  revert s; induction n as [|n IH]; intros [|c s]; simpl; try reflexivity.
  rewrite append_cons. f_equal. apply IH.
Qed.

Lemma strip_prefix_append (p s s' : string) :
  strip_prefix p s = Some s' -> s = p ++ s'.
Proof.
  revert s; induction p as [|a p IH]; intros s H.
  - destruct s; simpl in H; inversion H; reflexivity.
  - destruct s as [|b s]; simpl in H; [discriminate|].
    destruct (Ascii.eqb_spec a b) as [->|]; [|discriminate].
    rewrite append_cons. now rewrite (IH _ H).
Qed.

End StringFacts.

Lemma reach_refl (x : mstate) : reach x x.
Proof. exists ""; simpl; split; [reflexivity | lia]. Qed.

Lemma reach_trans (x y z : mstate) : reach x y -> reach y z -> reach x z.
Proof.
  intros [c [Hc Hp]] [d [Hd Hq]]. exists (c ++ d). split.
  - now rewrite Hc, Hd, append_assoc.
  - rewrite length_append. lia.
Qed.

Lemma reach_same (x x' y : mstate) :
  pos x' = pos x -> rest x' = rest x -> reach x' y -> reach x y.
Proof. intros Hp Hr [c [Hc Hq]]. exists c. now rewrite <- Hp, <- Hr. Qed.

Lemma repeat_sound (atom : cont -> cont) (inner : list nat) (greedy : bool) :
  sound atom ->
  forall fuel lo hi, sound (repeat atom inner greedy fuel lo hi).
Proof.
  intros Hatom fuel.
  induction fuel as [|fuel IH]; intros lo hi k x z H; simpl in H.
  - discriminate.
  - destruct (max_is_zero hi).
    + exists x. split; [apply reach_refl | exact H].
    + set (d := fun y : mstate =>
                  if Nat.eqb lo 0 && Nat.eqb (pos y) (pos x) then None
                  else repeat atom inner greedy fuel (Nat.pred lo)
                         (dec_max hi) k y) in H.
      assert (Hd : forall z', atom d (MState (pos x) (rest x)
                                         (cap_del inner (caps x))) = Some z' ->
                   exists y, reach x y /\ k y = Some z').
      { intros z' Hz. apply Hatom in Hz. destruct Hz as [y [Hxy Hy]].
        unfold d in Hy.
        destruct (Nat.eqb lo 0 && Nat.eqb (pos y) (pos x)); [discriminate|].
        apply IH in Hy. destruct Hy as [y' [Hyy' Hk]].
        exists y'. split; [|exact Hk].
        eapply reach_trans; [|exact Hyy'].
        eapply reach_same; [| |exact Hxy]; reflexivity. }
      destruct (negb (Nat.eqb lo 0)); [now apply Hd|].
      destruct greedy.
      * destruct (atom d _) as [z'|] eqn:E.
        -- inversion H; subst. now apply Hd.
        -- exists x. split; [apply reach_refl | exact H].
      * destruct (k x) as [z'|] eqn:E.
        -- inversion H; subst. exists x. split; [apply reach_refl | exact E].
        -- now apply Hd.
Qed.

Lemma run_sound (r : regex) : sound (run r).
Proof.
  induction r as [| p | | | a IHa b IHb | a IHa b IHb | g lo hi a IHa
                 | n a IHa | n | positive a IHa];
    intros k x z H; cbn [run] in H.
  - exists x. split; [apply reach_refl | exact H].
  - destruct (rest x) as [|c s'] eqn:E; [discriminate|].
    destruct (p c); [|discriminate].
    eexists. split; [|exact H].
    exists (String c ""). simpl. split; [exact E | lia].
  - destruct (Nat.eqb (pos x) 0); [|discriminate].
    exists x. split; [apply reach_refl | exact H].
  - destruct (rest x); [|discriminate].
    exists x. split; [apply reach_refl | exact H].
  - apply IHa in H. destruct H as [y [Hxy H]].
    apply IHb in H. destruct H as [y' [Hyy' H]].
    exists y'. split; [eapply reach_trans; eassumption | exact H].
  - destruct (run a k x) as [z'|] eqn:E.
    + inversion H; subst. now apply IHa.
    + now apply IHb.
  - exact (repeat_sound _ _ _ IHa _ _ _ _ _ _ H).
  - apply IHa in H. destruct H as [y [Hxy H]].
    eexists. split; [|exact H].
    destruct Hxy as [c [Hc Hp]]. exists c. simpl. now split.
  - destruct (cap_get n (caps x)) as [s|].
    + destruct (strip_prefix s (rest x)) as [s'|] eqn:E; [|discriminate].
      eexists. split; [|exact H].
      exists s. simpl. split; [now apply strip_prefix_append | reflexivity].
    + exists x. split; [apply reach_refl | exact H].
  - destruct (run a Some x) as [y|]; destruct positive; try discriminate.
    + eexists. split; [|exact H]. exists "". simpl. split; [reflexivity | lia].
    + exists x. split; [apply reach_refl | exact H].
Qed.

Lemma repeat_respects (atom : cont -> cont) (inner : list nat)
  (greedy : bool) :
  respects atom ->
  forall fuel lo hi, respects (repeat atom inner greedy fuel lo hi).
Proof.
  intros Hatom fuel.
  induction fuel as [|fuel IH]; intros lo hi k k' x H; simpl;
    [reflexivity|].
  rewrite (H x (reach_refl x)).
  destruct (max_is_zero hi); [reflexivity|].
  match goal with
  | |- context [atom ?d ?xr] =>
      match goal with
      | |- context [atom ?d' xr] =>
          tryif constr_eq d d' then fail else
            assert (Hd : atom d xr = atom d' xr)
      end
  end.
  { apply Hatom. intros y Hy.
    destruct (Nat.eqb lo 0 && Nat.eqb (pos y) (pos x)); [reflexivity|].
    apply IH. intros y' Hy'. apply H.
    eapply reach_trans; [|exact Hy'].
    eapply reach_same; [| |exact Hy]; reflexivity. }
  now rewrite Hd.
Qed.

Lemma run_respects (r : regex) : respects (run r).
Proof.
  induction r as [| p | | | a IHa b IHb | a IHa b IHb | g lo hi a IHa
                 | n a IHa | n | positive a IHa];
    intros k k' x H; cbn [run].
  - apply H, reach_refl.
  - destruct (rest x) as [|c s'] eqn:E; [reflexivity|].
    destruct (p c); [|reflexivity]. apply H.
    exists (String c ""). simpl. split; [exact E | lia].
  - destruct (Nat.eqb (pos x) 0); [apply H, reach_refl | reflexivity].
  - destruct (rest x); [apply H, reach_refl | reflexivity].
  - apply IHa. intros y Hy. apply IHb. intros y' Hy'. apply H.
    eapply reach_trans; eassumption.
  - now rewrite (IHa k k' x H), (IHb k k' x H).
  - now apply repeat_respects.
  - apply IHa. intros y [c [Hc Hp]]. apply H. exists c. simpl. now split.
  - destruct (cap_get n (caps x)) as [s|]; [|apply H, reach_refl].
    destruct (strip_prefix s (rest x)) as [s'|] eqn:E; [|reflexivity].
    apply H. exists s. simpl.
    split; [now apply strip_prefix_append | reflexivity].
  - destruct (run a Some x) as [y|]; destruct positive; try reflexivity.
    + apply H. exists "". simpl. split; [reflexivity | lia].
    + apply H, reach_refl.
Qed.

(** The fuel of a quantifier never runs out: any fuel above the bound that
    [run] provides gives the same answer. *)
Lemma repeat_fuel (atom : cont -> cont) (inner : list nat) (greedy : bool) :
  respects atom ->
  forall fuel fuel' lo hi k x,
  lo + String.length (rest x) < fuel ->
  lo + String.length (rest x) < fuel' ->
  repeat atom inner greedy fuel lo hi k x
  = repeat atom inner greedy fuel' lo hi k x.
Proof.
  intros Hatom fuel.
  induction fuel as [|fuel IH]; intros fuel' lo hi k x Hf Hf'; [lia|].
  destruct fuel' as [|fuel']; [lia|]. simpl.
  destruct (max_is_zero hi); [reflexivity|].
  match goal with
  | |- context [atom ?d ?xr] =>
      match goal with
      | |- context [atom ?d' xr] =>
          tryif constr_eq d d' then fail else
            assert (Hd : atom d xr = atom d' xr)
      end
  end.
  { apply Hatom. intros y [c [Hc Hp]]. simpl in Hc, Hp.
    destruct (Nat.eqb_spec lo 0) as [->|Hlo]; simpl.
    - destruct (Nat.eqb_spec (pos y) (pos x)) as [|Hne]; [reflexivity|].
      assert (String.length (rest x)
              = String.length c + String.length (rest y))
        by (rewrite Hc; apply length_append).
      apply IH; lia.
    - assert (String.length (rest x)
              = String.length c + String.length (rest y))
        by (rewrite Hc; apply length_append).
      apply IH; lia. }
  now rewrite Hd.
Qed.

Lemma run_rep_fuel (greedy : bool) (lo : nat) (hi : option nat) (a : regex)
  (k : cont) (x : mstate) (extra : nat) :
  run (Rep greedy lo hi a) k x
  = repeat (run a) (groups a) greedy
      (S (lo + String.length (rest x)) + extra) lo hi k x.
Proof.
  cbn [run]. apply repeat_fuel; [apply run_respects | lia | lia].
Qed.

Lemma run_consumed (r : regex) (i : nat) (s : string) (y : mstate) :
  run r Some (MState i s []) = Some y ->
  s = take (pos y - i) s ++ rest y.
Proof.
  intros E. apply run_sound in E. destruct E as [y' [[c [Hc Hp]] Hy]].
  inversion Hy; subst y'. simpl in Hc, Hp.
  replace (pos y - i) with (String.length c) by lia.
  rewrite Hc at 2. rewrite take_append. exact Hc.
Qed.

Lemma search_from_split (r : regex) (s : string) :
  forall i m, search_from r i s = Some m ->
  exists a b, s = a ++ whole m ++ b /\ index m = i + String.length a.
Proof.
  induction s as [|ch s IH]; intros i m H; simpl in H.
  - destruct (run r Some (MState i "" [])) as [y|] eqn:E; [|discriminate].
    inversion H; subst; clear H. simpl.
    exists "", (rest y). rewrite append_nil_l.
    split; [exact (run_consumed r i _ y E) | simpl; lia].
  - destruct (run r Some (MState i (String ch s) [])) as [y|] eqn:E.
    + inversion H; subst; clear H. simpl.
      exists "", (rest y). rewrite append_nil_l.
      split; [exact (run_consumed r i _ y E) | simpl; lia].
    + apply IH in H. destruct H as [a [b [Hs Hi]]].
      exists (String ch a), b. rewrite append_cons, <- Hs.
      split; [reflexivity | simpl; lia].
Qed.

Lemma exec_split (r : regex) (s : string) (m : rmatch) :
  exec r s = Some m ->
  take (index m) s ++ whole m
    ++ skip (index m + String.length (whole m)) s = s
  /\ String.length (skip (index m + String.length (whole m)) s)
       + String.length (whole m) <= String.length s.
Proof.
  intros H. apply search_from_split in H. destruct H as [a [b [Hs Hi]]].
  simpl in Hi. rewrite Hi.
  assert (Ht : take (String.length a) s = a) by (rewrite Hs; apply take_append).
  assert (Hk : skip (String.length a + String.length (whole m)) s = b).
  { rewrite Hs at 1. rewrite <- append_assoc, <- length_append.
    apply skip_append. }
  rewrite Ht, Hk. split; [now rewrite <- Hs|].
  rewrite Hs, !length_append. lia.
Qed.

Lemma join_empty_cons (x : string) (l : list string) :
  join "" (x :: l) = x ++ join "" l.
Proof.
  destruct l as [|y l]; simpl; [now rewrite append_nil_r | reflexivity].
Qed.

(** The loop of [tokenise] ends within its fuel, and its fragments rejoin
    to the input, whatever the pattern. *)
Lemma tokenise_loop_join (pattern : regex) :
  forall fuel str, String.length str <= fuel ->
  exists parts,
    tokenise_loop fuel pattern first_entry str = Some parts
    /\ join "" parts = str.
Proof.
  induction fuel as [|fuel IH]; intros str Hlen.
  - destruct str; [|simpl in Hlen; lia]. exists []. now split.
  - destruct str as [|c str]; [exists []; now split|].
    remember (String c str) as s eqn:Es.
    assert (Hne : s <> "") by (subst; discriminate).
    assert (Hstep : tokenise_loop (S fuel) pattern first_entry s =
      match exec pattern s with
      | None => Some [s]
      | Some m =>
          if Nat.eqb (String.length (whole m)) 0 then Some [s]
          else
            match tokenise_loop fuel pattern first_entry
                    (skip (index m + String.length (whole m)) s) with
            | Some parts =>
                Some (take (index m) s
                        :: interpretString (first_entry m) :: parts)
            | None => None
            end
      end) by (subst s; reflexivity).
    rewrite Hstep. clear Hstep.
    destruct (exec pattern s) as [m|] eqn:E; [|exists [s]; now split].
    destruct (Nat.eqb_spec (String.length (whole m)) 0) as [Hz|Hz];
      [exists [s]; now split|].
    destruct (exec_split _ _ _ E) as [Hsplit Hshort].
    destruct (IH (skip (index m + String.length (whole m)) s))
      as [parts [Hp Hj]].
    { simpl in Hlen. lia. }
    rewrite Hp. eexists. split; [reflexivity|].
    rewrite !join_empty_cons, Hj. exact Hsplit.
Qed.

Lemma tokenise_join (pattern : regex) (s : string) :
  tokenise_loop (String.length s) pattern first_entry s
    = Some (tokenise (VStr s) pattern first_entry)
  /\ join "" (tokenise (VStr s) pattern first_entry) = s.
Proof.
  destruct (tokenise_loop_join pattern (String.length s) s (le_n _))
    as [parts [Hp Hj]].
  unfold tokenise. simpl. rewrite Hp. now split.
Qed.

(** Whatever the handler, the loop of [tokenise] ends within its fuel:
    [supplant] gets the fragments the source computes. *)
Lemma tokenise_loop_total (pattern : regex) (handler : rmatch -> value) :
  forall fuel str, String.length str <= fuel ->
  exists parts, tokenise_loop fuel pattern handler str = Some parts.
Proof.
  induction fuel as [|fuel IH]; intros str Hlen.
  - destruct str; [|simpl in Hlen; lia]. now exists [].
  - destruct str as [|c str]; [now exists []|].
    cbn [tokenise_loop].
    destruct (exec pattern (String c str)) as [m|] eqn:E;
      [|now eexists].
    destruct (Nat.eqb_spec (String.length (whole m)) 0) as [Hz|Hz];
      [now eexists|].
    destruct (exec_split _ _ _ E) as [_ Hshort].
    destruct (IH (skip (index m + String.length (whole m)) (String c str)))
      as [parts Hp].
    { simpl in Hlen, Hshort. simpl. lia. }
    rewrite Hp. now eexists.
Qed.

Lemma length_skip (n : nat) (s : string) :
  String.length (skip n s) = String.length s - n.
Proof.
  revert s. induction n as [|n IH]; intros [|c s]; simpl; try lia.
  apply IH.
Qed.

(** The fuel of [match_all] never runs out either. *)
Lemma match_all_fuel (r : regex) :
  forall fuel fuel' i s,
  String.length s < fuel -> String.length s < fuel' ->
  match_all r fuel i s = match_all r fuel' i s.
Proof.
  induction fuel as [|fuel IH]; intros fuel' i s Hf Hf'; [lia|].
  destruct fuel' as [|fuel']; [lia|]. cbn [match_all].
  destruct (search_from r i s) as [m|] eqn:E; [|reflexivity].
  apply search_from_split in E. destruct E as [a [b [Hs Hi]]].
  destruct (Nat.ltb_spec (String.length s)
              ((if is_empty (whole m)
                then S (index m + String.length (whole m))
                else index m + String.length (whole m)) - i));
    [reflexivity|].
  f_equal.
  assert (Hstep : 1 <= (if is_empty (whole m)
                        then S (index m + String.length (whole m))
                        else index m + String.length (whole m)) - i).
  { destruct (whole m) as [|c w]; simpl; lia. }
  apply IH; rewrite length_skip; lia.
Qed.

(* ===================================================================== *)
(** * The tokenizer                                                       *)
(* ===================================================================== *)

(** Claim C4.  For every input string, the fragments the tokenizer produces
    with the control-marker pattern [BRANCH_PART] rejoin, in order, to the
    input string: nothing is dropped and nothing is duplicated.  The loop
    ends within its fuel, so the fragments are the ones the source
    computes. *)
Theorem tokenise_roundtrip (s : string) :
  tokenise_loop (String.length s) BRANCH_PART first_entry s
    = Some (tokenise (VStr s) BRANCH_PART first_entry)
  /\ join "" (tokenise (VStr s) BRANCH_PART first_entry) = s.
Proof. apply tokenise_join. Qed.

(** A zero-length match ends the loop: what is left is one last fragment. *)
Lemma tokenise_zero_length (pattern : regex) (c : ascii) (s : string)
  (m : rmatch) :
  exec pattern (String c s) = Some m -> whole m = "" ->
  tokenise (VStr (String c s)) pattern first_entry = [String c s].
Proof.
  intros E W. unfold tokenise. simpl interpretString.
  cbn [String.length tokenise_loop]. now rewrite E, W.
Qed.

(* ===================================================================== *)
(** * What the engine reaches of [util]                                   *)
(* ===================================================================== *)

(** The members the engine calls and [util] has. *)
Lemma members_reached :
  Forall (fun m => has_member (fst m) (snd m) = true)
    [("String", "tokenise"); ("String", "supplant"); ("Array", "invoke");
     ("Array", "map"); ("Object", "access"); ("Object", "pair");
     ("Number", "isNumeric"); ("Function", "curry")].
Proof. repeat constructor. Qed.

(** The two it calls and [util] lacks. *)
Lemma members_missing {A B : Type} (f : A) (g : B) :
  member "Object" "assign" f
    = Throw (TypeError "util.Object.assign is not a function")
  /\ member "Array" "isArrayLike" g
     = Throw (TypeError "util.Array.isArrayLike is not a function").
Proof. split; reflexivity. Qed.

(** The module of the engine does not run to its end: its last call but
    one is of [util.Object.assign]. *)
Lemma module_body_throws :
  module_body = Throw (TypeError "util.Object.assign is not a function").
Proof. reflexivity. Qed.

(** makeIfBranch returns for no marker: a marker its pattern does not
    match is a null match that is dereferenced, and a marker it matches
    gets as far as the call of [util.Object.assign]. *)
Lemma makeIfBranch_throws (condition : string) :
  makeIfBranch condition
  = Throw (TypeError (match exec IF_OPEN condition with
                      | None => "Cannot read property 1 of null"
                      | Some _ => "util.Object.assign is not a function"
                      end)).
Proof.
  unfold makeIfBranch, if_parts.
  now destruct (exec IF_OPEN condition).
Qed.

Lemma makeEachBranch_throws (condition : string) :
  makeEachBranch condition
  = Throw (TypeError (match exec EACH_OPEN condition with
                      | None => "Cannot read property 1 of null"
                      | Some _ => "util.Object.assign is not a function"
                      end)).
Proof.
  unfold makeEachBranch, each_parts.
  now destruct (exec EACH_OPEN condition).
Qed.

(** [pair] returns for no argument. *)
Lemma pair_throws (object : fetched) :
  pair object
  = Throw (TypeError "util.Array.isArrayLike is not a function").
Proof. reflexivity. Qed.

(** No entry of [types], own or inherited, makes a branch. *)
Lemma types_throws (h : host) (type content : string) :
  exists message, types h type content = Throw (TypeError message).
Proof.
  unfold types.
  destruct (String.eqb type "each");
    [rewrite makeEachBranch_throws; eexists; reflexivity|].
  destruct (String.eqb type "if");
    [rewrite makeIfBranch_throws; eexists; reflexivity|].
  destruct (String.eqb type "text"); [eexists; reflexivity|].
  destruct (inherited h (VObj 0 []) type); eexists; reflexivity.
Qed.

Lemma openBranch_throws (h : host) (t : tree) (type content : string) :
  exists message, openBranch h t type content = Throw (TypeError message).
Proof.
  unfold openBranch. destruct (types_throws h type content) as [m ->].
  exists m. reflexivity.
Qed.

(** The builder never goes deeper than the root: a part of the template
    is added to the root as text, or closes the root, or fails. *)
Lemma setup_part_flat (h : host) (t t' : tree) (part : string) :
  flat t = true -> setup_part h t part = Ok t' -> flat t' = true.
Proof.
  intros Hflat.
  assert (Hadd : forall text, addBranch t (Text text) = Ok t' ->
                              flat t' = true).
  { intros text. destruct t as [|[[|c|c] bs] [|p parents]];
      try discriminate. intros [= <-]. cbn [flat] in *.
    rewrite forallb_app, Hflat. reflexivity. }
  unfold setup_part.
  destruct (exec PROCESS_BRANCH part) as [m|]; [|apply Hadd].
  destruct (negb _); [|apply Hadd].
  destruct (String.eqb _ "end").
  - destruct t as [|[[|c|c] bs] [|p parents]]; try discriminate.
    cbn [closeBranch]. destruct (String.eqb _ _); [|discriminate].
    now intros [= <-].
  - destruct (openBranch_throws h t (or_empty (group m 2)) (whole m))
      as [message ->]. discriminate.
Qed.

Lemma setup_parts_flat (h : host) (parts : list string) :
  forall t t', flat t = true -> setup_parts h t parts = Ok t' ->
               flat t' = true.
Proof.
  induction parts as [|part parts IH]; intros t t' Hflat;
    cbn [setup_parts].
  - now intros [= <-].
  - destruct (setup_part h t part) as [t1|e] eqn:H1; [|discriminate].
    apply IH. exact (setup_part_flat h _ _ _ Hflat H1).
Qed.

Lemma template_flat (h : host) (argument : value) (t : tree) :
  template h argument = Ok t -> flat t = true.
Proof.
  unfold template, setup. destruct (string_variable h); [|discriminate].
  now apply setup_parts_flat.
Qed.

(* ===================================================================== *)
(** * The value decoder                                                   *)
(* ===================================================================== *)

Lemma cap_del_nil (cs : list (nat * string)) : cap_del [] cs = cs.
Proof.
  unfold cap_del. induction cs as [|c cs IH]; simpl; [reflexivity|].
  f_equal. exact IH.
Qed.

(** A greedy quantifier whose minimum is reached succeeds as soon as its
    continuation accepts the state it starts from. *)
Lemma repeat_greedy_skip (atom : cont -> cont) (inner : list nat)
  (fuel : nat) (hi : option nat) (k : cont) (x : mstate) :
  k x <> None -> repeat atom inner true (S fuel) 0 hi k x <> None.
Proof.
  intros Hk. simpl. destruct (max_is_zero hi); [exact Hk|].
  match goal with |- match ?a with _ => _ end <> None => destruct a end;
    [discriminate | exact Hk].
Qed.

(** A greedy [[\s\S]] quantifier succeeds when its continuation accepts the
    end of the input. *)
Lemma repeat_any_end (k : cont) (c : list (nat * string)) (s : string) :
  forall fuel lo p,
  String.length s < fuel -> lo <= String.length s ->
  k (MState (p + String.length s) "" c) <> None ->
  repeat (run (Chr any_char)) [] true fuel lo None k (MState p s c) <> None.
Proof.
  induction s as [|a s IH]; intros fuel lo p Hf Hlo Hk;
    (destruct fuel as [|fuel]; [simpl in Hf; lia|]).
  - simpl in Hlo. assert (lo = 0) by lia. subst lo.
    simpl. rewrite Nat.add_0_r in Hk. exact Hk.
  - simpl in Hf, Hlo, Hk.
    assert (Hnext : forall lo', lo' <= String.length s ->
              repeat (run (Chr any_char)) [] true fuel lo' None k
                (MState (S p) s c) <> None).
    { intros lo' Hlo'. apply IH; [lia | exact Hlo'|].
      now replace (S p + String.length s) with (p + S (String.length s))
        by lia. }
    cbn [repeat max_is_zero run rest pos caps any_char dec_max].
    rewrite cap_del_nil.
    replace (Nat.eqb (S p) p) with false
      by (symmetry; apply Nat.eqb_neq; lia).
    rewrite andb_false_r.
    destruct lo as [|lo]; cbn [Nat.eqb negb Nat.pred].
    + specialize (Hnext 0 (Nat.le_0_l _)).
      destruct (repeat _ _ _ _ _ _ _ _); [discriminate | congruence].
    + apply Hnext. lia.
Qed.

(** One turn of a greedy quantifier whose minimum is reached. *)
Lemma repeat_greedy_atom (atom : cont -> cont) (inner : list nat)
  (fuel : nat) (hi : option nat) (k : cont) (x : mstate) :
  max_is_zero hi = false ->
  atom (fun y => if Nat.eqb (pos y) (pos x) then None
                 else repeat atom inner true fuel 0 (dec_max hi) k y)
       (MState (pos x) (rest x) (cap_del inner (caps x))) <> None ->
  repeat atom inner true (S fuel) 0 hi k x <> None.
Proof.
  intros Hz Ha. cbn [repeat]. rewrite Hz. cbn [Nat.eqb negb andb Nat.pred].
  match goal with |- match ?a with _ => _ end <> None => destruct a end;
    congruence.
Qed.

(** [QUOTED] matches every token: [decode] never dereferences a null
    match. *)
Lemma QUOTED_matches (s : string) : exec QUOTED s <> None.
Proof.
  assert (H : run QUOTED Some (MState 0 s []) <> None).
  { unfold QUOTED, opt, plus. cbn [seqs run pos Nat.eqb].
    apply repeat_greedy_skip. cbn [run rest Nat.add groups].
    destruct s as [|a s].
    - apply repeat_greedy_skip. cbn [run caps cap_get rest]. discriminate.
    - apply repeat_greedy_atom; [reflexivity|].
      cbn [run rest pos caps Nat.add groups].
      apply (repeat_any_end _ _ (String a s) _ 1 0);
        [simpl; lia | simpl; lia|].
      vm_compute. discriminate. }
  unfold exec.
  destruct (run QUOTED Some (MState 0 s [])) as [y|] eqn:E; [|congruence].
  destruct s as [|a s]; cbn [search_from]; rewrite E; discriminate.
Qed.

(** [decode] returns for every token. *)
Lemma decode_total (token : string) : exists d, decode token = Ok d.
Proof.
  unfold decode.
  destruct (String.eqb token "null"); [eexists; reflexivity|].
  destruct (String.eqb token "undefined"); [eexists; reflexivity|].
  destruct (String.eqb token "false" || String.eqb token "true");
    [eexists; reflexivity|].
  destruct (exec QUOTED token) as [parts|] eqn:E;
    [|now apply QUOTED_matches in E].
  destruct (group parts 1); [eexists; reflexivity|].
  destruct (isNumeric (VStr token)); eexists; reflexivity.
Qed.

(** Claim C7.  The decoder unwraps a quoted token with the second group of
    [QUOTED], which takes part in the match only when the quotes enclose at
    least one character: the two-character token made of two double quotes
    decodes to [undefined], not to the empty string. *)
Theorem decode_empty_quotes :
  decode (String DQ (String DQ "")) = Ok (Literal VUndef)
  /\ decode "''" = Ok (Literal VUndef)
  /\ decode "``" = Ok (Literal VUndef).
Proof. repeat split; vm_compute; reflexivity. Qed.

(** The other interpretations, on the tokens the specification names. *)
Lemma decode_examples :
  decode "null" = Ok (Literal VNull)
  /\ decode "undefined" = Ok (Literal VUndef)
  /\ decode "true" = Ok (Literal (VBool true))
  /\ decode "false" = Ok (Literal (VBool false))
  /\ decode (String DQ (String "5" (String DQ ""))) = Ok (Literal (VStr "5"))
  /\ decode "5" = Ok (Literal (VNum 5))
  /\ decode "count" = Ok (Deferred "count").
Proof. repeat split; vm_compute; reflexivity. Qed.

(* ===================================================================== *)
(** * The [if] branch                                                     *)
(* ===================================================================== *)


(** The flag: the test of the table applied to the resolved (and possibly
    negated) property and to the decoded operand, a deferred operand being
    resolved against the same data. *)
Lemma shouldRender_test (c : if_spec) (data : value)
  (f : value -> value -> bool) :
  tests (test c) = Some f ->
  exists d,
    decode (operand c) = Ok d
    /\ shouldRender c data
       = Ok (f (if is_bang (negation c)
                then VBool (negb (truthy (access data (propertyPath c))))
                else access data (propertyPath c))
               (match d with
                | Deferred path => access data path
                | Literal v => v
                end)).
Proof.
  intros Hf. destruct (decode_total (operand c)) as [d Hd].
  exists d. split; [exact Hd|].
  unfold shouldRender. rewrite Hd. simpl. now rewrite Hf.
Qed.

Lemma shouldRender_no_test (c : if_spec) (data : value) :
  tests (test c) = None -> shouldRender c data = Ok true.
Proof.
  intros Ht. destruct (decode_total (operand c)) as [d Hd].
  unfold shouldRender. rewrite Hd. simpl. now rewrite Ht.
Qed.

(** Claim C1.  The example of the specification, as the code runs it, the
    text being what the variable [string] holds.  The marker is read as the
    claim says (the path [count], the operator [>], the operand [5]); then
    makeIfBranch calls [util.Object.assign], which [util] does not have:
    [template] throws while it compiles, whatever its argument and the
    chain are, and nothing is rendered, neither [big] nor the empty
    string.  (The tokenizer, besides, hands the character before a marker
    over with the marker: the [g] of [big] goes with the end marker.) *)
Theorem if_example_raises_at_compile (chain : value -> string -> bool)
  (argument : value) (st : store) (data : loc) :
  let source := "${#if count > 5}big${#end if}" in
  tokenise (VStr source) BRANCH_PART first_entry
    = [""; "${#if count > 5}"; "bi"; "g${#end if}"]
  /\ if_parts "${#if count > 5}" = Ok (IfSpec None "count" ">" "5")
  /\ makeIfBranch "${#if count > 5}"
     = Throw (TypeError "util.Object.assign is not a function")
  /\ template (with_string source chain) argument
     = Throw (TypeError "util.Object.assign is not a function")
  /\ run_template (with_string source chain) argument st data
     = Throw (TypeError "util.Object.assign is not a function").
Proof. repeat split; vm_compute; reflexivity. Qed.


(* ===================================================================== *)
(** * Escaping                                                            *)
(* ===================================================================== *)

(** The handler of [supplant] answers an escaped placeholder with the
    placeholder itself, the backslash dropped and nothing substituted. *)
Lemma supplant_handler_escaped (replacements : value) (m : rmatch) :
  group m 1 = Some (String BSLASH "") ->
  supplant_handler replacements m = VStr (or_empty (group m 2)).
Proof. intros H. unfold supplant_handler. rewrite H. reflexivity. Qed.

(** [setup] turns an escaped marker into a Text branch. *)
Lemma setup_part_escaped (h : host) (t : tree) (part : string)
  (m : rmatch) :
  exec PROCESS_BRANCH part = Some m ->
  group m 1 = Some (String BSLASH "") ->
  setup_part h t part = addBranch t (Text part).
Proof. intros E H. unfold setup_part. rewrite E, H. reflexivity. Qed.

(** The escaped placeholder of the specification, and an escaped control
    marker on one line, held by the variable [string]: both render as the
    marker without its backslash, for every chain, argument, store and
    data. *)
Lemma escaped_examples (chain : value -> string -> bool) (argument : value)
  (st : store) (data : loc) :
  run_template (with_string (String BSLASH "${x}") chain) argument st data
    = Ok (st, Ok "${x}")
  /\ run_template (with_string (String BSLASH "${#if x}") chain) argument
       st data
     = Ok (st, Ok "${#if x}").
Proof. split; vm_compute; reflexivity. Qed.

(** Claim C8.  An escaped control marker is handed to [supplant] as Text;
    the placeholder pattern of [supplant] does not cross a line terminator
    ([.] excludes it) while the marker pattern does, so an escaped marker
    that spans two lines is rendered with its backslash.  The text is the
    one the variable [string] holds, whatever the argument of [template],
    the chain, the store and the data are. *)
Theorem escaped_multiline_marker_keeps_backslash
  (chain : value -> string -> bool) (argument : value) (st : store)
  (data : loc) :
  let source := String BSLASH ("${#if" ++ String LF "x}") in
  template (with_string source chain) argument
    = Ok [Open KBase [Text ""; Text source]]
  /\ run_template (with_string source chain) argument st data
     = Ok (st, Ok source).
Proof. split; vm_compute; reflexivity. Qed.

(* ===================================================================== *)
(** * The path resolver and the placeholders                              *)
(* ===================================================================== *)

(** A key the value does not own ends the walk with [undefined]. *)
Lemma access_walk_missing (object : value) (property : string)
  (path : list string) :
  own_property object property = None ->
  access_walk object (property :: path) = VUndef.
Proof.
  intros H. simpl. destruct (is_nullish object); [reflexivity|].
  now rewrite H.
Qed.

(** Nothing can be read from null or undefined. *)
Lemma access_walk_nullish (object : value) (property : string)
  (path : list string) :
  is_nullish object = true ->
  access_walk object (property :: path) = VUndef.
Proof. intros H. simpl. now rewrite H. Qed.

(** A placeholder that is not escaped and whose value is neither a string
    nor a number is left as it is, with the character before it. *)
Lemma supplant_handler_verbatim (replacements : value) (m : rmatch) :
  or_empty (group m 1) <> String BSLASH "" ->
  is_string_or_number
    (access replacements (or_empty (group m 3))) = false ->
  supplant_handler replacements m
  = VStr (or_empty (group m 1) ++ or_empty (group m 2)).
Proof.
  intros Hp Hv. unfold supplant_handler. rewrite Hv.
  destruct (String.eqb_spec (or_empty (group m 1)) (String BSLASH ""));
    [contradiction | reflexivity].
Qed.

Lemma supplant_missing_example :
  supplant (VStr "Hello ${world}, ${list}")
    (VObj 1 [("nothing", VStr "you"); ("list", VArr 2 [])])
  = "Hello ${world}, ${list}".
Proof. vm_compute; reflexivity. Qed.

(** Claim C5.  A template that is well formed, an [each] over [items]
    around one placeholder, held by the variable [string]: compiling it
    raises a TypeError, for every argument and chain, when makeEachBranch
    calls [util.Object.assign]; the error is none of the three structural
    ones. *)
Theorem well_formed_each_raises (chain : value -> string -> bool)
  (argument : value) :
  let source := "${#each items as item}${item}${#end each}" in
  each_parts "${#each items as item}" = Ok (EachSpec "items" None "item")
  /\ template (with_string source chain) argument
     = Throw (TypeError "util.Object.assign is not a function")
  /\ ~ structural (TypeError "util.Object.assign is not a function").
Proof.
  split; [vm_compute; reflexivity|]. split; [vm_compute; reflexivity|].
  intros [[type H]|[[branchType [type H]]|[type H]]]; discriminate H.
Qed.

(* ===================================================================== *)
(** * Rendering and the store                                             *)
(* ===================================================================== *)

Lemma branch_induction (P : branch -> Prop) :
  (forall text, P (Text text)) ->
  (forall c branches, Forall P branches -> P (If c branches)) ->
  (forall c branches, Forall P branches -> P (Each c branches)) ->
  forall b, P b.
Proof.
  intros HT HI HE. fix IH 1. intros [text|c branches|c branches].
  - apply HT.
  - apply HI. induction branches as [|b bs IHbs]; constructor;
      [apply IH | exact IHbs].
  - apply HE. induction branches as [|b bs IHbs]; constructor;
      [apply IH | exact IHbs].
Qed.

Lemma invoke_unchanged {A : Type}
  (body : A -> store -> store * result string) (l : list A) :
  Forall (fun a => forall st, fst (body a st) = st) l ->
  forall st,
    fst (invoke body l st) = st
    /\ snd (invoke body l st)
       = concat_results (map (fun a => snd (body a st)) l).
Proof.
  induction 1 as [|a l Ha _ IH]; intros st; [now split|].
  cbn [invoke map concat_results]. specialize (Ha st).
  destruct (body a st) as [st1 [s|e]]; cbn [fst snd] in *; subst st1;
    [|now split].
  destruct (IH st) as [Hst Hres].
  destruct (invoke body l st) as [st2 [s'|e]]; cbn [fst snd] in *;
    subst st2; rewrite <- Hres; now split.
Qed.

(** Rendering a branch leaves the store as it found it: the one closure
    that writes, the one of an [each] branch, does not get past [pair]. *)
Lemma render_unchanged (h : host) (b : branch) :
  forall st data, fst (render h b st data) = st.
Proof.
  induction b as [text|c branches IH|c branches IH] using branch_induction;
    intros st data.
  - reflexivity.
  - cbn [render]. destruct (shouldRender c (load st data)) as [[|]|e];
      try reflexivity.
    apply invoke_unchanged. eapply Forall_impl; [|exact IH].
    intros b Hb st'. apply Hb.
  - cbn [render]. destruct (get h (load st data) (dataKey c)) as [v|e];
      reflexivity.
Qed.

(** What a list of branches renders: the results of its branches, each
    rendered in the store the first one found. *)
Lemma render_base_results (h : host) (branches : list branch) (st : store)
  (data : loc) :
  fst (render_base h branches st data) = st
  /\ snd (render_base h branches st data)
     = concat_results (map (fun b => snd (render h b st data)) branches).
Proof.
  apply invoke_unchanged, Forall_forall.
  intros b _ st'. apply render_unchanged.
Qed.





(* ===================================================================== *)
(** * The caller's context                                                *)
(* ===================================================================== *)



(* ===================================================================== *)
(** * The tree builder                                                    *)
(* ===================================================================== *)

Lemma render_texts (h : host) (branches : list branch) (st : store)
  (data : loc) :
  forallb is_text branches = true ->
  exists texts,
    branches = map Text texts
    /\ render_base h branches st data
       = (st, Ok (join ""
                    (map (fun text => supplant (VStr text) (load st data))
                       texts))).
Proof.
  intros Hb.
  assert (Htexts : exists texts, branches = map Text texts).
  { induction branches as [|[text|c bs|c bs] branches IH];
      try discriminate.
    - now exists [].
    - destruct (IH Hb) as [texts ->]. now exists (text :: texts). }
  destruct Htexts as [texts ->]. exists texts. split; [reflexivity|].
  clear Hb. unfold render_base.
  induction texts as [|text texts IH]; [reflexivity|].
  cbn [map invoke render]. rewrite IH. now rewrite join_empty_cons.
Qed.

(** Claim C3.  The example of the specification, held by the variable
    [string]: [template] throws a TypeError while it compiles the [if]
    marker (makeIfBranch calls [util.Object.assign]), so there is nothing
    to render and no unclosed branch is reported.  No template that does
    compile has a branch open, [openBranch] failing for every kind: the
    SyntaxError of [tree.render] is raised for none. *)
Theorem unclosed_branch_never_reported (h : host) (argument : value)
  (t : tree) (st : store) (data : loc) (type : string) :
  template h argument = Ok t ->
  (forall chain argument',
     template (with_string "${#if x}no close" chain) argument'
     = Throw (TypeError "util.Object.assign is not a function"))
  /\ flat t = true
  /\ snd (tree_render h t st data)
     <> Throw (SyntaxError ("Unclosed " ++ type ++ " branch")).
Proof.
  intros Ht. split; [intros; vm_compute; reflexivity|].
  pose proof (template_flat h argument t Ht) as Hflat.
  split; [exact Hflat|].
  destruct t as [|[[|c|c] bs] [|p parents]]; try discriminate.
  cbn [tree_render okind obranches].
  destruct (render_texts h bs st data Hflat) as [texts [_ ->]].
  discriminate.
Qed.

Lemma unclosed_branch_never_reported_example :
  let h := with_string "no close" Object_prototype in
  let t := [Open KBase [Text "no close"]] in
  template h VUndef = Ok t
  /\ tree_render h t [VNull] 0 = ([VNull], Ok "no close")
  /\ snd (tree_render h t [VNull] 0)
     <> Throw (SyntaxError ("Unclosed " ++ "if" ++ " branch")).
Proof.
  intros h t.
  assert (Ht : template h VUndef = Ok t) by (vm_compute; reflexivity).
  split; [exact Ht|]. split; [vm_compute; reflexivity|].
  exact (proj2 (proj2 (unclosed_branch_never_reported h VUndef t [VNull] 0
                         "if" Ht))).
Defined.


(* ===================================================================== *)
(** * The [each] branch                                                   *)
(* ===================================================================== *)

Lemma to_uint_not_nil (n : nat) : Nat.to_uint n <> Decimal.Nil.
Proof.
  intros H. pose proof (Unsigned.to_of (Nat.to_uint n)) as E.
  rewrite Unsigned.of_to, H in E. discriminate E.
Qed.

Lemma parse_index_string_of_nat (n : nat) :
  parse_index (string_of_nat n) = Some n.
Proof.
  unfold parse_index, string_of_nat.
  rewrite NilZero.usu by apply to_uint_not_nil.
  cbv zeta. rewrite Unsigned.of_to. now rewrite String.eqb_refl.
Qed.

Lemma string_of_nat_not_length (n : nat) :
  String.eqb (string_of_nat n) "length" = false.
Proof.
  apply String.eqb_neq. intros H.
  pose proof (parse_index_string_of_nat n) as P. rewrite H in P.
  vm_compute in P. discriminate P.
Qed.

Lemma own_property_index (r : ref) (l : list value) (i : nat) :
  own_property (VArr r l) (string_of_nat i) = nth_error l i.
Proof.
  simpl. now rewrite string_of_nat_not_length, parse_index_string_of_nat.
Qed.

Lemma flat_map_indexed (l pre suf : list value) :
  l = (pre ++ suf)%list ->
  flat_map (fun i => match nth_error l i with
                     | Some v => [(VNum (Z.of_nat i), v)]
                     | None => []
                     end) (seq (length pre) (length suf))
  = indexed (length pre) suf.
Proof.
  revert pre. induction suf as [|v suf IH]; intros pre Hl; [reflexivity|].
  simpl. subst l. rewrite nth_error_app2 by lia.
  rewrite Nat.sub_diag. simpl. f_equal.
  specialize (IH (pre ++ [v])%list).
  rewrite length_app, Nat.add_1_r in IH.
  apply IH. now rewrite <- app_assoc.
Qed.


(** The closure of an [each] branch reads [data[dataKey]], which throws
    on null and undefined, and hands what it read to [pair], which throws
    on everything: it writes nothing and renders nothing. *)
Lemma render_each (h : host) (c : each_spec) (branches : list branch)
  (st : store) (data : loc) :
  render h (Each c branches) st data
  = (st, Throw (TypeError
                  (if is_nullish (load st data)
                   then "Cannot read property " ++ dataKey c
                   else "util.Array.isArrayLike is not a function"))).
Proof.
  cbn [render]. unfold get.
  now destruct (is_nullish (load st data)).
Qed.

(** Claim C2.  An [each] over an array, around one placeholder, held by the
    variable [string]: the marker is read (the collection [xs], the value
    name [x]), and makeEachBranch then calls [util.Object.assign], which
    [util] does not have, so [template] throws while it compiles, for
    every argument and chain.  Nothing is paired either: [pair] calls
    [util.Array.isArrayLike], which [util] does not have, and throws on
    every collection, an empty one included; so does the closure of an
    [each] branch on every data. *)
Theorem each_example_raises_at_compile (chain : value -> string -> bool)
  (argument : value) :
  let source := "${#each xs as x}(${x})${#end each}" in
  each_parts "${#each xs as x}" = Ok (EachSpec "xs" None "x")
  /\ makeEachBranch "${#each xs as x}"
     = Throw (TypeError "util.Object.assign is not a function")
  /\ template (with_string source chain) argument
     = Throw (TypeError "util.Object.assign is not a function")
  /\ (forall collection,
        pair collection
        = Throw (TypeError "util.Array.isArrayLike is not a function"))
  /\ (forall h c branches st data,
        exists message,
          render h (Each c branches) st data
          = (st, Throw (TypeError message))).
Proof.
  split; [vm_compute; reflexivity|]. split; [vm_compute; reflexivity|].
  split; [vm_compute; reflexivity|]. split; [exact pair_throws|].
  intros h c branches st data. rewrite render_each. eexists. reflexivity.
Qed.

(* ===================================================================== *)
(** * The [each] marker                                                   *)
(* ===================================================================== *)

Lemma word_not_space (c : ascii) : is_word c = true -> is_space c = false.
Proof.
  destruct c as [[] [] [] [] [] [] [] []]; vm_compute; congruence.
Qed.

Lemma dollar_not_word : is_word "$" = false.
Proof. reflexivity. Qed.

(** An all-[P] prefix of [a ++ b], where [a] is all [P] and [b] stops [P],
    is a prefix of [a]. *)
Lemma split_class (P : ascii -> bool) (a b : string) :
  all_chars P a = true -> stops P b = true ->
  forall pre suf, a ++ b = pre ++ suf -> all_chars P pre = true ->
  exists a', a = pre ++ a' /\ suf = a' ++ b.
Proof.
  intros Ha Hb. induction a as [|x a IH]; intros pre suf E Hpre.
  - rewrite append_nil_l in E. destruct pre as [|y pre].
    + exists "". now rewrite !append_nil_l in *.
    + rewrite append_cons in E. subst b. simpl in Hb, Hpre.
      apply andb_prop in Hpre. destruct Hpre as [Hy _].
      rewrite Hy in Hb. discriminate.
  - simpl in Ha. apply andb_prop in Ha. destruct Ha as [_ Ha].
    destruct pre as [|y pre].
    + exists (String x a). now rewrite !append_nil_l in *.
    + rewrite !append_cons in E. inversion E; subst y.
      simpl in Hpre. apply andb_prop in Hpre. destruct Hpre as [_ Hpre].
      destruct (IH Ha pre suf H1 Hpre) as [a' [-> ->]].
      exists a'. now rewrite append_cons.
Qed.

(** One turn of a greedy class quantifier on a non-empty input. *)
Lemma repeat_class_step (P : ascii -> bool) (k : cont)
  (c : list (nat * string)) (a : ascii) (s : string) (fuel lo p : nat) :
  repeat (run (Chr P)) [] true (S fuel) lo None k (MState p (String a s) c)
  = let next :=
      if P a then
        repeat (run (Chr P)) [] true fuel (Nat.pred lo) None k
          (MState (S p) s c)
      else None in
    if negb (Nat.eqb lo 0) then next
    else match next with
         | Some z => Some z
         | None => k (MState p (String a s) c)
         end.
Proof.
  cbn [repeat max_is_zero run rest pos caps dec_max].
  rewrite cap_del_nil.
  replace (Nat.eqb (S p) p) with false
    by (symmetry; apply Nat.eqb_neq; lia).
  rewrite andb_false_r. reflexivity.
Qed.

Lemma repeat_class_empty (P : ascii -> bool) (k : cont)
  (c : list (nat * string)) (fuel lo p : nat) :
  repeat (run (Chr P)) [] true (S fuel) lo None k (MState p "" c)
  = if negb (Nat.eqb lo 0) then None else k (MState p "" c).
Proof. reflexivity. Qed.

(** A greedy class quantifier fails when its continuation refuses every
    split it can offer: an all-[P] prefix of at least [lo] characters. *)
Lemma repeat_class_none (P : ascii -> bool) (k : cont)
  (c : list (nat * string)) (s : string) :
  forall fuel lo p,
  String.length s < fuel ->
  (forall pre suf, s = pre ++ suf -> all_chars P pre = true ->
     lo <= String.length pre ->
     k (MState (p + String.length pre) suf c) = None) ->
  repeat (run (Chr P)) [] true fuel lo None k (MState p s c) = None.
Proof.
  induction s as [|a s IH]; intros fuel lo p Hf Hk;
    (destruct fuel as [|fuel]; [simpl in Hf; lia|]).
  - rewrite repeat_class_empty.
    destruct lo as [|lo]; cbn [Nat.eqb negb]; [|reflexivity].
    specialize (Hk "" "" eq_refl eq_refl (Nat.le_0_l _)).
    cbn [String.length] in Hk. rewrite Nat.add_0_r in Hk. exact Hk.
  - assert (Hhere : lo = 0 -> k (MState p (String a s) c) = None).
    { intros ->. specialize (Hk "" (String a s) eq_refl eq_refl (le_n _)).
      cbn [String.length] in Hk. now rewrite Nat.add_0_r in Hk. }
    assert (Hnext : P a = true ->
              repeat (run (Chr P)) [] true fuel (Nat.pred lo) None k
                (MState (S p) s c) = None).
    { intros Ha. apply IH; [simpl in Hf; lia|].
      intros pre suf E Hpre Hlo.
      specialize (Hk (String a pre) suf).
      rewrite append_cons, <- E in Hk. cbn [String.length all_chars] in Hk.
      rewrite Ha, Hpre in Hk.
      replace (p + S (String.length pre)) with (S p + String.length pre)
        in Hk by lia.
      apply Hk; [reflexivity | reflexivity | lia]. }
    rewrite repeat_class_step. cbv zeta.
    destruct (P a).
    + rewrite (Hnext eq_refl).
      destruct lo as [|lo]; cbn [Nat.eqb negb];
        [now apply Hhere | reflexivity].
    + destruct lo as [|lo]; cbn [Nat.eqb negb];
        [now apply Hhere | reflexivity].
Qed.

Lemma repeat_class_stops (P : ascii -> bool) (k : cont)
  (c : list (nat * string)) (s : string) (fuel lo p : nat) :
  stops P s = true -> 1 <= lo ->
  repeat (run (Chr P)) [] true (S fuel) lo None k (MState p s c) = None.
Proof.
  intros Hs Hlo. destruct lo as [|lo]; [lia|]. destruct s as [|a s].
  - now rewrite repeat_class_empty.
  - rewrite repeat_class_step. cbv zeta. simpl in Hs.
    apply negb_true_iff in Hs. now rewrite Hs.
Qed.

Lemma run_seq (a b : regex) (k : cont) (x : mstate) :
  run (Seq a b) k x = run a (run b k) x.
Proof. reflexivity. Qed.

Lemma run_plus_class (P : ascii -> bool) (k : cont) (x : mstate) :
  run (plus (Chr P)) k x
  = repeat (run (Chr P)) [] true (S (1 + String.length (rest x))) 1 None k x.
Proof. reflexivity. Qed.

Lemma run_grp (n : nat) (a : regex) (k : cont) (x : mstate) :
  run (Grp n a) k x
  = run a (fun y =>
             k (MState (pos y) (rest y)
                  (cap_set n (take (pos y - pos x) (rest x)) (caps y)))) x.
Proof. reflexivity. Qed.

(** A literal consumes itself. *)
Lemma run_lits_prefix (l : string) :
  forall k p s c,
  run (lits l) k (MState p (l ++ s) c)
  = k (MState (p + String.length l) s c).
Proof.
  induction l as [|a l IH]; intros k p s c.
  - rewrite append_nil_l. simpl. now rewrite Nat.add_0_r.
  - rewrite append_cons.
    assert (Hlit : forall k' s',
              run (lit a) k' (MState p (String a s') c)
              = k' (MState (S p) s' c)).
    { intros k' s'. cbn [lit run rest pos caps]. now rewrite Ascii.eqb_refl. }
    destruct l as [|b l].
    + rewrite append_nil_l. cbn [lits]. rewrite Hlit.
      cbn [String.length]. now rewrite Nat.add_1_r.
    + change (lits (String a (String b l)))
        with (Seq (lit a) (lits (String b l))).
      rewrite run_seq, Hlit, IH. cbn [String.length]. f_equal. f_equal. lia.
Qed.

(** A literal refuses an input that does not start with its first
    character. *)
Lemma run_lits_mismatch (a : ascii) (l : string) (k : cont) (x : mstate) :
  match rest x with
  | String c _ => Ascii.eqb a c = false
  | EmptyString => True
  end ->
  run (lits (String a l)) k x = None.
Proof.
  intros H.
  assert (Hlit : forall k', run (lit a) k' x = None).
  { intros k'. cbn [lit run]. destruct (rest x) as [|c s]; [reflexivity|].
    now rewrite H. }
  destruct l as [|b l]; [apply Hlit|].
  change (lits (String a (String b l)))
    with (Seq (lit a) (lits (String b l))).
  rewrite run_seq. apply Hlit.
Qed.


Lemma all_chars_append (P : ascii -> bool) (a b : string) :
  all_chars P (a ++ b) = all_chars P a && all_chars P b.
Proof.
  induction a as [|x a IH]; [reflexivity|].
  rewrite append_cons. simpl. now rewrite IH, andb_assoc.
Qed.






(* ===================================================================== *)
(** * Quoted operands                                                     *)
(* ===================================================================== *)

Lemma run_opt_first (a : regex) (k : cont) (x : mstate) (z : mstate) :
  run a (fun y => if Nat.eqb (pos y) (pos x) then None else k y)
    (MState (pos x) (rest x) (cap_del (groups a) (caps x))) = Some z ->
  run (opt a) k x = Some z.
Proof.
  intros H. unfold opt. rewrite (run_rep_fuel _ _ _ _ _ _ 1).
  rewrite Nat.add_1_r.
  cbn [repeat max_is_zero Nat.eqb negb andb dec_max Nat.pred Nat.add].
  rewrite H. reflexivity.
Qed.

Lemma repeat_any_last (k : cont) (c : list (nat * string)) (qc : ascii)
  (z : mstate) (body : string) :
  forall fuel lo p,
  String.length body + 1 < fuel -> lo <= String.length body ->
  k (MState (p + String.length body + 1) "" c) = None ->
  k (MState (p + String.length body) (String qc "") c) = Some z ->
  repeat (run (Chr any_char)) [] true fuel lo None k
    (MState p (body ++ String qc "") c) = Some z.
Proof.
  induction body as [|a body IH]; intros fuel lo p Hf Hlo Hend Hlast;
    (destruct fuel as [|fuel]; [simpl in Hf; lia|]).
  - simpl in Hlo. assert (lo = 0) by lia. subst lo.
    rewrite append_nil_l, repeat_class_step. cbv zeta.
    cbn [any_char Nat.eqb negb Nat.pred].
    destruct fuel as [|fuel]; [simpl in Hf; lia|].
    rewrite repeat_class_empty. cbn [Nat.eqb negb].
    simpl in Hend, Hlast. rewrite Nat.add_0_r in Hend, Hlast.
    rewrite Nat.add_1_r in Hend. now rewrite Hend.
  - rewrite append_cons, repeat_class_step. cbv zeta. cbn [any_char].
    rewrite (IH fuel (Nat.pred lo) (S p)).
    + now destruct (negb (Nat.eqb lo 0)).
    + simpl in Hf. lia.
    + simpl in Hlo. lia.
    + simpl in Hend. now replace (S p + String.length body + 1)
        with (p + S (String.length body) + 1) by lia.
    + simpl in Hlast. now replace (S p + String.length body)
        with (p + S (String.length body)) by lia.
Qed.

Lemma run_bol (k : cont) (x : mstate) :
  run Bol k x = if Nat.eqb (pos x) 0 then k x else None.
Proof. reflexivity. Qed.

Lemma run_chr (P : ascii -> bool) (k : cont) (p : nat) (a : ascii)
  (s : string) (c : list (nat * string)) :
  run (Chr P) k (MState p (String a s) c)
  = if P a then k (MState (S p) s c) else None.
Proof. reflexivity. Qed.

Lemma QUOTED_unwraps (q : ascii) (inner : string) :
  is_quote q = true -> inner <> "" ->
  exists m, exec QUOTED (String q (inner ++ String q "")) = Some m
    /\ group m 1 = Some (String q "") /\ group m 2 = Some inner.
Proof.
  intros Hq Hin.
  assert (H : exists y,
    run QUOTED Some (MState 0 (String q (inner ++ String q "")) []) = Some y
    /\ cap_get 1 (caps y) = Some (String q "")
    /\ cap_get 2 (caps y) = Some inner).
  { unfold QUOTED. cbn [seqs]. rewrite run_seq, run_bol. cbn [pos Nat.eqb].
    rewrite run_seq.
    eexists. split.
    - apply run_opt_first. rewrite run_grp. cbn [rest pos caps].
      rewrite run_chr.
      change (Ascii.eqb q DQ || Ascii.eqb q "'" || Ascii.eqb q "`")
        with (is_quote q).
      rewrite Hq. cbn [pos Nat.eqb Nat.sub take rest caps].
      rewrite run_seq. apply run_opt_first. rewrite run_grp, run_plus_class.
      cbn [rest pos caps].
      apply repeat_any_last.
      + rewrite length_append. simpl. lia.
      + destruct inner; [congruence | simpl; lia].
      + cbn [pos rest caps Nat.add].
        destruct (_ =? _)%nat; reflexivity.
      + cbn [pos rest caps Nat.add].
        replace (S (String.length inner) =? 1)%nat with false.
        2:{ symmetry. apply Nat.eqb_neq.
            destruct inner; [congruence | simpl; lia]. }
        rewrite run_seq. unfold plus. simpl.
        rewrite Ascii.eqb_refl. reflexivity.
    - simpl. split; [reflexivity|].
      rewrite Nat.sub_0_r. f_equal. apply take_append. }
  destruct H as [y [Hy [H1 H2]]].
  exists (RMatch 0 (take (pos y - 0) (String q (inner ++ String q "")))
            (caps y)).
  split; [|split; assumption].
  unfold exec. cbn [search_from]. now rewrite Hy.
Qed.

Lemma quote_not_word (q : ascii) : is_quote q = true -> is_word q = false.
Proof.
  unfold is_quote. intros H.
  apply orb_prop in H. destruct H as [H|H];
    [apply orb_prop in H; destruct H as [H|H]|];
    apply Ascii.eqb_eq in H; subst q; reflexivity.
Qed.

Lemma eqb_quoted_keyword (q c : ascii) (s kw : string) :
  is_quote q = true -> is_word c = true ->
  String.eqb (String q s) (String c kw) = false.
Proof.
  intros Hq Hc. cbn [String.eqb].
  destruct (Ascii.eqb_spec q c) as [->|]; [|reflexivity].
  apply quote_not_word in Hq. congruence.
Qed.

(** A token in matching quotes around at least one character decodes to
    the characters between the quotes, whatever they are: a numeral in
    quotes is a string. *)
Lemma decode_quoted (q : ascii) (inner : string) :
  is_quote q = true -> inner <> "" ->
  decode (String q (inner ++ String q "")) = Ok (Literal (VStr inner)).
Proof.
  intros Hq Hin.
  destruct (QUOTED_unwraps q inner Hq Hin) as [m [Hm [H1 H2]]].
  unfold decode.
  rewrite (eqb_quoted_keyword q "n" _ "ull" Hq eq_refl).
  rewrite (eqb_quoted_keyword q "u" _ "ndefined" Hq eq_refl).
  rewrite (eqb_quoted_keyword q "f" _ "alse" Hq eq_refl).
  rewrite (eqb_quoted_keyword q "t" _ "rue" Hq eq_refl).
  cbn [orb]. now rewrite Hm, H1, H2.
Qed.

Lemma decode_quoted_example :
  is_quote "'" = true /\ "5" <> ""
  /\ decode "'5'" = Ok (Literal (VStr "5")).
Proof.
  assert (Hq : is_quote "'" = true) by reflexivity.
  assert (Hin : "5" <> "") by discriminate.
  split; [exact Hq|]. split; [exact Hin|].
  exact (decode_quoted "'" "5" Hq Hin).
Defined.

(* ===================================================================== *)
(** * Text without markers                                                *)
(* ===================================================================== *)

Lemma run_alt (a b : regex) (k : cont) (x : mstate) :
  run (Alt a b) k x
  = match run a k x with
    | Some z => Some z
    | None => run b k x
    end.
Proof. reflexivity. Qed.

Lemma not_dollar_head (c : ascii) (s : string) :
  all_chars not_dollar (String c s) = true -> Ascii.eqb "$" c = false.
Proof.
  cbn [all_chars]. intros H. apply andb_prop in H. destruct H as [H _].
  unfold not_dollar in H. apply negb_true_iff in H.
  now rewrite Ascii.eqb_sym.
Qed.

(** After the one-character context of a marker comes a dollar sign: where
    the text has none, the patterns that start with [PREFIX] fail. *)
Lemma run_PREFIX_no_dollar (K : cont) (x : mstate) :
  (forall y, match rest y with
             | String c _ => Ascii.eqb "$" c = false
             | EmptyString => True
             end -> K y = None) ->
  all_chars not_dollar (rest x) = true ->
  run PREFIX K x = None.
Proof.
  intros HK Hx. unfold PREFIX. rewrite run_grp.
  assert (Hhere : forall cs, K (MState (pos x) (rest x) cs) = None).
  { intros cs. apply HK. cbn [rest]. destruct (rest x) as [|c s] eqn:E;
      [exact I | now apply (not_dollar_head c s)]. }
  assert (Hnext : forall c s p cs, rest x = String c s ->
                    K (MState p s cs) = None).
  { intros c s p cs E. apply HK. cbn [rest]. rewrite E in Hx.
    simpl in Hx. apply andb_prop in Hx. destruct Hx as [_ Hs].
    destruct s as [|c' s']; [exact I | now apply (not_dollar_head c' s')]. }
  cbn [run lit].
  destruct (Nat.eqb (pos x) 0); cbn [pos rest caps];
    rewrite ?Hhere;
    destruct (rest x) as [|c s] eqn:E; try reflexivity;
    destruct (is_dot c); rewrite ?(Hnext c s _ _ eq_refl);
    destruct (Ascii.eqb CR c); rewrite ?(Hnext c s _ _ eq_refl);
    destruct (Ascii.eqb LF c); rewrite ?(Hnext c s _ _ eq_refl);
    reflexivity.
Qed.

Lemma search_from_PREFIX_no_dollar (K : regex) (s : string) :
  (forall k y, match rest y with
               | String c _ => Ascii.eqb "$" c = false
               | EmptyString => True
               end -> run K k y = None) ->
  forall i, all_chars not_dollar s = true ->
  search_from (Seq PREFIX K) i s = None.
Proof.
  intros HK. induction s as [|c s IH]; intros i Hs; cbn [search_from];
    rewrite run_seq, run_PREFIX_no_dollar; try reflexivity;
    try (intros y Hy; now apply HK); try exact Hs.
  apply IH. simpl in Hs. apply andb_prop in Hs. apply Hs.
Qed.

Lemma BRANCH_PART_no_dollar (s : string) :
  all_chars not_dollar s = true -> exec BRANCH_PART s = None.
Proof.
  intros Hs. unfold exec, BRANCH_PART. cbn [seqs].
  apply search_from_PREFIX_no_dollar; [|exact Hs].
  intros k y Hy. rewrite run_seq. now apply run_lits_mismatch.
Qed.

Lemma PROCESS_BRANCH_no_dollar (s : string) :
  all_chars not_dollar s = true -> exec PROCESS_BRANCH s = None.
Proof.
  intros Hs. unfold exec, PROCESS_BRANCH. cbn [seqs].
  apply search_from_PREFIX_no_dollar; [|exact Hs].
  intros k y Hy. rewrite run_seq. now apply run_lits_mismatch.
Qed.

Lemma PLACEHOLDER_no_dollar (s : string) :
  all_chars not_dollar s = true -> exec PLACEHOLDER s = None.
Proof.
  intros Hs. unfold exec, PLACEHOLDER. cbn [seqs].
  apply search_from_PREFIX_no_dollar; [|exact Hs].
  intros k y Hy. rewrite run_grp, run_seq. now apply run_lits_mismatch.
Qed.

Lemma tokenise_no_match (pattern : regex) (handler : rmatch -> value)
  (s : string) :
  exec pattern s = None ->
  tokenise (VStr s) pattern handler
  = match s with EmptyString => [] | _ => [s] end.
Proof.
  intros E. unfold tokenise. cbn [interpretString].
  destruct s as [|c s]; [reflexivity|].
  cbn [String.length tokenise_loop]. now rewrite E.
Qed.

(** A text without a dollar sign holds no placeholder: [supplant] returns
    it as it is, whatever the replacements. *)
Theorem supplant_plain_text (s : string) (replacements : value) :
  all_chars not_dollar s = true ->
  supplant (VStr s) replacements = s.
Proof.
  intros Hs. unfold supplant. cbn [interpretString].
  rewrite tokenise_no_match by now apply PLACEHOLDER_no_dollar.
  now destruct s.
Qed.

Lemma supplant_plain_text_example :
  all_chars not_dollar "<li>50% off</li>" = true
  /\ supplant (VStr "<li>50% off</li>") (VObj 1 [("off", VStr "x")])
     = "<li>50% off</li>".
Proof.
  split; [reflexivity|]. apply supplant_plain_text. reflexivity.
Defined.

(** A text without a dollar sign, held by the variable [string], compiles
    to itself alone and renders as itself, for every argument of
    [template], chain, store and data; nothing is written. *)
Theorem template_plain_text (s : string) (chain : value -> string -> bool)
  (argument : value) (st : store) (data : loc) :
  all_chars not_dollar s = true ->
  template (with_string s chain) argument
    = Ok [Open KBase (match s with EmptyString => [] | _ => [Text s] end)]
  /\ run_template (with_string s chain) argument st data = Ok (st, Ok s).
Proof.
  intros Hs.
  assert (Ht : template (with_string s chain) argument
    = Ok [Open KBase (match s with EmptyString => [] | _ => [Text s] end)]).
  { unfold template, setup. cbn [with_string string_variable].
    rewrite tokenise_no_match by now apply BRANCH_PART_no_dollar.
    destruct s as [|c s]; [reflexivity|].
    cbn [setup_parts]. unfold setup_part.
    now rewrite PROCESS_BRANCH_no_dollar. }
  split; [exact Ht|].
  unfold run_template. rewrite Ht. cbn [bind].
  destruct s as [|c s]; [reflexivity|].
  cbn [tree_render okind obranches render_base invoke render].
  rewrite supplant_plain_text by exact Hs. now rewrite append_nil_r.
Qed.

Lemma template_plain_text_example :
  all_chars not_dollar "<ul></ul>" = true
  /\ template (with_string "<ul></ul>" Object_prototype) VUndef
     = Ok [Open KBase [Text "<ul></ul>"]]
  /\ run_template (with_string "<ul></ul>" Object_prototype) VUndef [VNull] 0
     = Ok ([VNull], Ok "<ul></ul>").
Proof.
  split; [reflexivity|].
  apply (template_plain_text "<ul></ul>" Object_prototype VUndef [VNull] 0).
  reflexivity.
Defined.

(* ===================================================================== *)
(** * Paths                                                               *)
(* ===================================================================== *)

(** A greedy class quantifier takes the whole run of the class when its
    continuation accepts what follows. *)
Lemma repeat_class_max (P : ascii -> bool) (k : cont)
  (c : list (nat * string)) (suf : string) (z : mstate) (pre : string) :
  forall fuel lo p,
  String.length (pre ++ suf) < fuel ->
  all_chars P pre = true -> stops P suf = true ->
  lo <= String.length pre ->
  k (MState (p + String.length pre) suf c) = Some z ->
  repeat (run (Chr P)) [] true fuel lo None k (MState p (pre ++ suf) c)
  = Some z.
Proof.
  induction pre as [|a pre IH]; intros fuel lo p Hf Hpre Hsuf Hlo Hk;
    (destruct fuel as [|fuel]; [simpl in Hf; lia|]).
  - simpl in Hlo. assert (lo = 0) by lia. subst lo.
    rewrite append_nil_l. simpl in Hk. rewrite Nat.add_0_r in Hk.
    destruct suf as [|b suf].
    + now rewrite repeat_class_empty.
    + rewrite repeat_class_step. cbv zeta. simpl in Hsuf.
      apply negb_true_iff in Hsuf. now rewrite Hsuf.
  - rewrite append_cons, repeat_class_step. cbv zeta.
    simpl in Hpre. apply andb_prop in Hpre. destruct Hpre as [Ha Hpre].
    rewrite Ha, (IH fuel (Nat.pred lo) (S p)).
    + now destruct (negb (Nat.eqb lo 0)).
    + rewrite append_cons in Hf. simpl in Hf. lia.
    + exact Hpre.
    + exact Hsuf.
    + simpl in Hlo. lia.
    + simpl in Hk. now replace (S p + String.length pre)
        with (p + S (String.length pre)) by lia.
Qed.

Lemma plain_key_inv (k : string) :
  plain_key k = true ->
  exists a k', k = String a k' /\ key_char a = true
               /\ all_chars key_char k' = true.
Proof.
  unfold plain_key. destruct k as [|a k']; [discriminate|].
  simpl. intros H. apply andb_prop in H. now exists a, k'.
Qed.

(** At a plain key, [PATH_PART] matches the key, up to the next dot or
    bracket. *)
Lemma PATH_PART_key (k suf : string) (i : nat) :
  plain_key k = true -> stops key_char suf = true ->
  search_from PATH_PART i (k ++ suf) = Some (RMatch i k []).
Proof.
  intros Hk Hsuf.
  assert (Hrun : run PATH_PART Some (MState i (k ++ suf) [])
                 = Some (MState (i + String.length k) suf [])).
  { unfold PATH_PART. rewrite run_alt, run_plus_class.
    cbn [rest]. rewrite (repeat_class_max key_char Some [] suf
                           (MState (i + String.length k) suf []));
      try reflexivity; try assumption; try lia.
    - unfold plain_key in Hk. apply andb_prop in Hk. apply Hk.
    - unfold plain_key in Hk. destruct k; [discriminate | simpl; lia]. }
  destruct (plain_key_inv k Hk) as [a [k' [-> _]]].
  rewrite append_cons in *. cbn [search_from]. rewrite Hrun.
  cbn [pos caps]. f_equal. f_equal.
  replace (i + String.length (String a k') - i)
    with (String.length (String a k')) by lia.
  rewrite <- append_cons. apply take_append.
Qed.

(** At a dot that a plain key follows, [PATH_PART] has no match. *)
Lemma PATH_PART_dot (k suf : string) (i : nat) :
  plain_key k = true ->
  run PATH_PART Some (MState i (String "." (k ++ suf)) []) = None.
Proof.
  intros Hk. destruct (plain_key_inv k Hk) as [a [k' [-> [Ha _]]]].
  rewrite append_cons.
  assert (Hd : Ascii.eqb "." a = false /\ Ascii.eqb "[" a = false).
  { clear - Ha. destruct a as [[] [] [] [] [] [] [] []];
      try discriminate Ha; split; reflexivity. }
  destruct Hd as [Hdot Hbr].
  unfold PATH_PART. rewrite run_alt, run_plus_class.
  rewrite repeat_class_stops by (reflexivity || lia).
  rewrite run_alt.
  replace (run (seqs _) Some _) with (@None mstate) by reflexivity.
  cbn [run lit lits rest pos caps].
  rewrite Hdot, Hbr. reflexivity.
Qed.

Lemma match_all_key (k suf : string) (fuel i : nat) :
  plain_key k = true -> stops key_char suf = true ->
  match_all PATH_PART (S fuel) i (k ++ suf)
  = RMatch i k [] :: match_all PATH_PART fuel (i + String.length k) suf.
Proof.
  intros Hk Hsuf. cbn [match_all].
  rewrite (PATH_PART_key k suf i Hk Hsuf). cbn [index whole].
  destruct (plain_key_inv k Hk) as [a [k' [-> _]]]. cbn [is_empty].
  replace (i + String.length (String a k') - i)
    with (String.length (String a k')) by lia.
  rewrite length_append.
  destruct (Nat.ltb_spec (String.length (String a k') + String.length suf)
              (String.length (String a k'))); [lia|].
  now rewrite skip_append.
Qed.

Lemma match_all_dot (k suf : string) (fuel i : nat) :
  plain_key k = true -> stops key_char suf = true ->
  match_all PATH_PART (S fuel) i (String "." (k ++ suf))
  = match_all PATH_PART (S fuel) (S i) (k ++ suf).
Proof.
  intros Hk Hsuf. cbn [match_all search_from].
  rewrite (PATH_PART_dot k suf i Hk), (PATH_PART_key k suf (S i) Hk Hsuf).
  cbn [index whole].
  destruct (plain_key_inv k Hk) as [a [k' [-> _]]]. cbn [is_empty].
  replace (S i + String.length (String a k') - i)
    with (S (String.length (String a k'))) by lia.
  replace (S i + String.length (String a k') - S i)
    with (String.length (String a k')) by lia.
  cbn [String.length skip Nat.ltb Nat.leb]. reflexivity.
Qed.

Lemma match_all_PATH_PART_empty (fuel i : nat) :
  match_all PATH_PART fuel i "" = [].
Proof. destruct fuel; reflexivity. Qed.

Lemma join_dot_cons (k : string) (keys : list string) :
  exists suf, join "." (k :: keys) = k ++ suf
              /\ stops key_char suf = true
              /\ (keys = [] -> suf = "")
              /\ (forall k2 r, keys = k2 :: r ->
                    suf = String "." (join "." (k2 :: r))).
Proof.
  destruct keys as [|k2 r].
  - exists "". cbn [join]. rewrite append_nil_r.
    repeat split; try reflexivity. discriminate.
  - exists (String "." (join "." (k2 :: r))).
    repeat split; try reflexivity; try discriminate.
    now intros ? ? [= <- <-].
Qed.

Lemma match_all_keys (keys : list string) :
  Forall (fun k => plain_key k = true) keys ->
  forall fuel i,
  String.length (join "." keys) < fuel ->
  map path_key (match_all PATH_PART fuel i (join "." keys)) = keys.
Proof.
  induction 1 as [|k keys Hk Hkeys IH]; intros fuel i Hf.
  - now rewrite match_all_PATH_PART_empty.
  - destruct fuel as [|fuel]; [lia|].
    destruct (join_dot_cons k keys) as [suf [Hj [Hstop [Hnil Hcons]]]].
    rewrite Hj in *. rewrite (match_all_key k suf fuel i Hk Hstop).
    cbn [map]. f_equal.
    destruct keys as [|k2 r].
    + rewrite (Hnil eq_refl). now rewrite match_all_PATH_PART_empty.
    + rewrite (Hcons k2 r eq_refl) in *.
      rewrite length_append in Hf. cbn [String.length] in Hf.
      destruct fuel as [|fuel]; [lia|].
      destruct (join_dot_cons k2 r) as [suf2 [Hj2 [Hstop2 _]]].
      rewrite Hj2.
      rewrite (match_all_dot k2 suf2 fuel _ (Forall_inv Hkeys) Hstop2).
      rewrite <- Hj2. apply IH. lia.
Qed.

Lemma leading_dot_key (a : ascii) (s : string) :
  key_char a = true ->
  match String a s with
  | String "." _ => [""]
  | _ => @nil string
  end = [].
Proof.
  destruct a as [[] [] [] [] [] [] [] []]; try reflexivity; discriminate.
Qed.

Lemma stringToPath_join (keys : list string) :
  Forall (fun k => plain_key k = true) keys ->
  stringToPath (VStr (join "." keys)) = keys.
Proof.
  intros Hkeys. unfold stringToPath. cbn [interpretString].
  rewrite (match_all_keys keys Hkeys) by lia.
  destruct keys as [|k keys]; [reflexivity|].
  destruct (join_dot_cons k keys) as [suf [-> _]].
  destruct (plain_key_inv k (Forall_inv Hkeys)) as [a [k' [-> [Ha _]]]].
  rewrite append_cons. now rewrite leading_dot_key.
Qed.

(** Walking a path in two legs: an undefined reached on the first leg
    stays undefined on the second. *)
Lemma access_walk_app (path1 path2 : list string) :
  forall object,
  access_walk object (path1 ++ path2)
  = access_walk (access_walk object path1) path2.
Proof.
  induction path1 as [|k path1 IH]; intros object; [reflexivity|].
  cbn [app access_walk].
  destruct (match (if is_nullish object then None
                   else own_property object k) with
            | Some v => v
            | None => VUndef
            end) eqn:E; try apply IH.
  destruct path2; reflexivity.
Qed.

(** Splitting a path into plain keys is the inverse of joining the keys
    with dots: [toPath] of the dotted path is the list of keys. *)
Theorem stringToPath_dotted (keys : list string) :
  Forall (fun k => plain_key k = true) keys ->
  stringToPath (VStr (join "." keys)) = keys.
Proof. apply stringToPath_join. Qed.

Lemma stringToPath_dotted_example :
  Forall (fun k => plain_key k = true) ["one"; "five-six"; "nine"]
  /\ stringToPath (VStr "one.five-six.nine") = ["one"; "five-six"; "nine"].
Proof.
  split; [repeat constructor|].
  apply (stringToPath_dotted ["one"; "five-six"; "nine"]).
  repeat constructor.
Defined.

(** A dotted path resolves leg by leg: resolving [a.b] is resolving [b]
    against what [a] resolves to. *)
Theorem access_dotted_compose (object : value) (keys1 keys2 : list string) :
  Forall (fun k => plain_key k = true) keys1 ->
  Forall (fun k => plain_key k = true) keys2 ->
  access object (join "." (keys1 ++ keys2))
  = access (access object (join "." keys1)) (join "." keys2).
Proof.
  intros H1 H2. unfold access.
  rewrite !stringToPath_join by (try apply Forall_app; auto).
  apply access_walk_app.
Qed.

Lemma access_dotted_compose_example :
  let object :=
    VObj 1 [("one", VObj 2 [("two", VObj 3 [("three", VStr "cat")])])] in
  Forall (fun k => plain_key k = true) ["one"]
  /\ Forall (fun k => plain_key k = true) ["two"; "three"]
  /\ access object "one.two.three"
     = access (access object "one") "two.three".
Proof.
  intros object. split; [repeat constructor|].
  split; [repeat constructor|].
  apply (access_dotted_compose object ["one"] ["two"; "three"]);
    repeat constructor.
Defined.

(** A key that is missing anywhere along a dotted path makes the whole
    path resolve to undefined, whatever follows the key. *)
Theorem access_missing_key (object : value) (before after : list string)
  (k : string) :
  Forall (fun k => plain_key k = true) (before ++ k :: after) ->
  own_property (access object (join "." before)) k = None ->
  access object (join "." (before ++ k :: after)) = VUndef.
Proof.
  intros Hkeys Hmiss.
  assert (Hb : Forall (fun k => plain_key k = true) before)
    by (apply Forall_app in Hkeys; apply Hkeys).
  unfold access in *. rewrite stringToPath_join in * by assumption.
  rewrite access_walk_app. cbn [access_walk]. rewrite Hmiss.
  now destruct (is_nullish _).
Qed.

Lemma access_missing_key_example :
  let object := VObj 1 [("five-six", VObj 2 [("seven", VNum 7)])] in
  Forall (fun k => plain_key k = true) (["five-six"] ++ "one" :: ["two"])
  /\ own_property (access object "five-six") "one" = None
  /\ access object "five-six.one.two" = VUndef.
Proof.
  intros object. split; [repeat constructor|].
  split; [vm_compute; reflexivity|].
  apply (access_missing_key object ["five-six"] ["two"] "one");
    [repeat constructor | vm_compute; reflexivity].
Defined.

Lemma string_of_uint_digits (d : Decimal.uint) :
  all_chars is_digit (NilEmpty.string_of_uint d) = true.
Proof. induction d; simpl; try reflexivity; exact IHd. Qed.

Lemma string_of_nat_digits (n : nat) :
  all_chars is_digit (string_of_nat n) = true
  /\ is_empty (string_of_nat n) = false.
Proof.
  unfold string_of_nat, NilZero.string_of_uint.
  destruct (Nat.to_uint n) as [|u|u|u|u|u|u|u|u|u|u];
    (split; [|reflexivity]); try reflexivity;
    apply (string_of_uint_digits u).
Qed.

(** A quantifier [?] whose atom cannot match passes on. *)
Lemma run_opt_skip (a : regex) (k : cont) (x : mstate) :
  (forall d, run a d (MState (pos x) (rest x)
                        (cap_del (groups a) (caps x))) = None) ->
  run (opt a) k x = k x.
Proof.
  intros H. unfold opt. cbn [run repeat max_is_zero Nat.eqb negb Nat.add].
  now rewrite H.
Qed.

Lemma run_lit_mismatch (a : ascii) (k : cont) (x : mstate) :
  match rest x with
  | String c _ => Ascii.eqb a c = false
  | EmptyString => True
  end ->
  run (lit a) k x = None.
Proof.
  intros H. cbn [lit run]. destruct (rest x); [reflexivity | now rewrite H].
Qed.

Lemma run_lit_match (a : ascii) (k : cont) (p : nat) (s : string)
  (c : list (nat * string)) :
  run (lit a) k (MState p (String a s) c) = k (MState (S p) s c).
Proof. cbn [lit run rest pos caps]. now rewrite Ascii.eqb_refl. Qed.

Lemma digit_facts (a : ascii) :
  is_digit a = true ->
  Ascii.eqb "-" a = false /\ Ascii.eqb "." a = false
  /\ key_char a = true.
Proof.
  destruct a as [[] [] [] [] [] [] [] []]; try discriminate;
    repeat split; reflexivity.
Qed.

(** At a bracketed numeral, [PATH_PART] matches the brackets and captures
    the numeral. *)
Lemma PATH_PART_index (ds suf : string) (i : nat) :
  all_chars is_digit ds = true -> is_empty ds = false ->
  search_from PATH_PART i (String "[" (ds ++ String "]" suf))
  = Some (RMatch i (String "[" (ds ++ String "]" "")) [(1, ds)]).
Proof.
  intros Hds Hne.
  assert (Hd0 : exists a ds', ds = String a ds' /\ is_digit a = true).
  { destruct ds as [|a ds']; [discriminate|]. simpl in Hds.
    apply andb_prop in Hds. now exists a, ds'. }
  destruct Hd0 as [a [ds' [Eds Ha]]].
  destruct (digit_facts a Ha) as [Hminus [Hdot _]].
  assert (Hrun : run PATH_PART Some
                   (MState i (String "[" (ds ++ String "]" suf)) [])
                 = Some (MState (S (S (i + String.length ds))) suf
                           [(1, ds)])).
  { unfold PATH_PART. rewrite run_alt, run_plus_class.
    rewrite repeat_class_stops by (reflexivity || lia).
    rewrite run_alt. cbn [seqs]. rewrite run_seq, run_lit_match.
    rewrite run_seq, run_alt, run_grp, run_seq.
    rewrite run_opt_skip.
    2:{ intros d. apply run_lit_mismatch. cbn [rest]. now rewrite Eds. }
    rewrite run_seq, run_plus_class. cbn [rest pos caps].
    rewrite (repeat_class_max is_digit _ _ (String "]" suf)
               (MState (S (S (i + String.length ds))) suf [(1, ds)]));
      try reflexivity; try assumption; try lia.
    - destruct ds; [discriminate | simpl; lia].
    - rewrite run_opt_skip.
      2:{ intros d. rewrite run_seq. now apply run_lit_mismatch. }
      cbn [pos rest caps]. rewrite run_lit_match.
      replace (S i + String.length ds - S i) with (String.length ds) by lia.
      rewrite take_append. cbn [cap_set cap_del filter].
      f_equal; f_equal; lia. }
  cbn [search_from]. rewrite Hrun. cbn [pos caps]. f_equal. f_equal.
  replace (S (S (i + String.length ds)) - i)
    with (S (String.length (ds ++ String "]" ""))) by
    (rewrite length_append; simpl; lia).
  cbn [take]. f_equal.
  replace (ds ++ String "]" suf) with ((ds ++ String "]" "") ++ suf)
    by (now rewrite append_assoc).
  apply take_append.
Qed.

Lemma stringToPath_index (k : string) (n : nat) :
  plain_key k = true ->
  stringToPath (VStr (k ++ "[" ++ string_of_nat n ++ "]"))
  = [k; string_of_nat n].
Proof.
  intros Hk. destruct (string_of_nat_digits n) as [Hds Hne].
  change (k ++ "[" ++ string_of_nat n ++ "]")
    with (k ++ String "[" (string_of_nat n ++ String "]" "")).
  unfold stringToPath. cbn [interpretString].
  set (suf := String "[" (string_of_nat n ++ String "]" "")).
  assert (Hlead : match k ++ suf with
                  | String "." _ => [""]
                  | _ => @nil string
                  end = []).
  { destruct (plain_key_inv k Hk) as [a [k' [-> [Ha _]]]].
    rewrite append_cons. now apply leading_dot_key. }
  rewrite Hlead. cbn [app].
  rewrite (match_all_key k suf _ 0 Hk eq_refl). cbn [map]. f_equal.
  unfold suf. rewrite length_append. cbn [match_all].
  rewrite Nat.add_comm. cbn [Nat.add match_all].
  rewrite (PATH_PART_index (string_of_nat n) "" _ Hds Hne).
  cbn [index whole is_empty].
  match goal with
  | |- context [Nat.ltb ?a ?b] =>
      destruct (Nat.ltb_spec a b) as [Hlt|Hge]
  end.
  - cbn [map]. unfold path_key, group. cbn [captures cap_get Nat.eqb].
    cbn [or_empty is_empty negb]. now rewrite Hne.
  - cbn [map]. unfold path_key at 1, group.
    cbn [captures cap_get Nat.eqb or_empty is_empty negb]. rewrite Hne.
    cbn [negb]. f_equal.
    match goal with
    | |- context [skip ?m ?s] =>
        replace (skip m s) with "" by
          (symmetry;
           assert (Hz : String.length (skip m s) = 0)
             by (rewrite length_skip; cbn [String.length]; lia);
           destruct (skip m s); [reflexivity | discriminate Hz])
    end.
    now rewrite match_all_PATH_PART_empty.
Qed.

(** A bracketed index after a key reads the element of the array the key
    resolves to; an index past the end gives undefined. *)
Theorem access_array_index (object : value) (k : string) (r : ref)
  (l : list value) (n : nat) :
  plain_key k = true ->
  access object k = VArr r l ->
  access object (k ++ "[" ++ string_of_nat n ++ "]")
  = match nth_error l n with
    | Some v => v
    | None => VUndef
    end.
Proof.
  intros Hk Harr. unfold access in *.
  rewrite stringToPath_index by exact Hk.
  assert (Hone : stringToPath (VStr k) = [k]).
  { apply (stringToPath_join [k]). now constructor. }
  rewrite Hone in Harr.
  change [k; string_of_nat n] with ([k] ++ [string_of_nat n])%list.
  rewrite access_walk_app, Harr. cbn [access_walk is_nullish].
  rewrite own_property_index. now destruct (nth_error l n) as [[]|].
Qed.

Lemma access_array_index_example :
  let object := VObj 1 [("four", VArr 2 [VStr "one"; VStr "two"])] in
  plain_key "four" = true
  /\ access object "four" = VArr 2 [VStr "one"; VStr "two"]
  /\ access object "four[1]" = VStr "two"
  /\ access object "four[2]" = VUndef.
Proof.
  intros object. split; [reflexivity|]. split; [vm_compute; reflexivity|].
  split.
  - apply (access_array_index object "four" 2 [VStr "one"; VStr "two"] 1);
      [reflexivity | vm_compute; reflexivity].
  - apply (access_array_index object "four" 2 [VStr "one"; VStr "two"] 2);
      [reflexivity | vm_compute; reflexivity].
Defined.

(* ===================================================================== *)
(** * Placeholders                                                        *)
(* ===================================================================== *)

Lemma repeat_lazy_step (P : ascii -> bool) (k : cont)
  (c : list (nat * string)) (s : string) (fuel p : nat) :
  repeat (run (Chr P)) [] false (S fuel) 0 None k (MState p s c)
  = match k (MState p s c) with
    | Some z => Some z
    | None =>
        match s with
        | String a s' =>
            if P a then
              repeat (run (Chr P)) [] false fuel 0 None k (MState (S p) s' c)
            else None
        | EmptyString => None
        end
    end.
Proof.
  cbn [repeat max_is_zero run rest pos caps dec_max Nat.pred].
  rewrite cap_del_nil, Nat.eqb_refl. cbn [negb andb].
  destruct (k (MState p s c)); [reflexivity|].
  destruct s as [|a s']; [reflexivity|].
  replace (Nat.eqb (S p) p) with false
    by (symmetry; apply Nat.eqb_neq; lia).
  reflexivity.
Qed.

(** A lazy class quantifier stops at the first place its continuation
    accepts. *)
Lemma repeat_lazy_class (P : ascii -> bool) (k : cont)
  (c : list (nat * string)) (suf : string) (z : mstate) (body : string) :
  forall fuel p,
  String.length (body ++ suf) < fuel ->
  all_chars P body = true ->
  (forall pre1 a pre2, body = pre1 ++ String a pre2 ->
     k (MState (p + String.length pre1) (String a pre2 ++ suf) c) = None) ->
  k (MState (p + String.length body) suf c) = Some z ->
  repeat (run (Chr P)) [] false fuel 0 None k (MState p (body ++ suf) c)
  = Some z.
Proof.
  induction body as [|a body IH]; intros fuel p Hf Hbody Hnot Hk;
    (destruct fuel as [|fuel]; [simpl in Hf; lia|]);
    rewrite repeat_lazy_step.
  - rewrite append_nil_l. simpl in Hk. rewrite Nat.add_0_r in Hk.
    now rewrite Hk.
  - pose proof (Hnot "" a body eq_refl) as H0.
    cbn [String.length] in H0. rewrite Nat.add_0_r in H0.
    rewrite H0. rewrite append_cons.
    simpl in Hbody. apply andb_prop in Hbody. destruct Hbody as [Ha Hbody].
    rewrite Ha. apply IH.
    + rewrite append_cons in Hf. simpl in Hf. lia.
    + exact Hbody.
    + intros pre1 b pre2 E.
      specialize (Hnot (String a pre1) b pre2).
      rewrite append_cons, <- E in Hnot. cbn [String.length] in Hnot.
      replace (S p + String.length pre1)
        with (p + S (String.length pre1)) by lia.
      now apply Hnot.
    + simpl in Hk. now replace (S p + String.length body)
        with (p + S (String.length body)) by lia.
Qed.

Lemma dot_or_terminator (c : ascii) :
  (is_dot c = true /\ Ascii.eqb CR c = false /\ Ascii.eqb LF c = false)
  \/ (is_dot c = false /\ (Ascii.eqb CR c = true \/ Ascii.eqb LF c = true)).
Proof.
  destruct c as [[] [] [] [] [] [] [] []]; vm_compute; intuition congruence.
Qed.

(** Past the start of the input, or where the rest cannot follow at once,
    [PREFIX] takes exactly one character, whatever it is. *)
Lemma run_PREFIX_char (K : cont) (p : nat) (c : ascii) (s : string)
  (cs : list (nat * string)) :
  (forall cs', K (MState p (String c s) cs') = None) ->
  run PREFIX K (MState p (String c s) cs)
  = K (MState (S p) s (cap_set 1 (String c "") cs)).
Proof.
  intros Hhere. unfold PREFIX. rewrite run_grp.
  cbn [run lit rest pos caps].
  replace (S p - p) with 1 by lia. cbn [take].
  rewrite Hhere.
  assert (Hif : (if Nat.eqb p 0 then @None mstate else None) = None)
    by (destruct (Nat.eqb p 0); reflexivity).
  rewrite Hif.
  destruct (dot_or_terminator c) as [[Hd [Hcr Hlf]]|[Hd [Hcr|Hlf]]];
    rewrite Hd, ?Hcr, ?Hlf.
  all: destruct (K (MState (S p) s _));
    repeat match goal with
           | |- context [if ?b then _ else _] => destruct b
           end; reflexivity.
Qed.

(** At the start of the input [PREFIX] first tries to take nothing. *)
Lemma run_PREFIX_start (K : cont) (s : string) (z : mstate) :
  K (MState 0 s (cap_set 1 "" [])) = Some z ->
  run PREFIX K (MState 0 s []) = Some z.
Proof.
  intros H. unfold PREFIX. rewrite run_grp. cbn [run rest pos caps Nat.eqb].
  replace (take (0 - 0) s) with "" by (now destruct s).
  now rewrite H.
Qed.

Lemma PLACEHOLDER_HOLE : PLACEHOLDER = Seq PREFIX HOLE.
Proof. reflexivity. Qed.

Lemma HOLE_mismatch (k : cont) (y : mstate) :
  match rest y with
  | String c _ => Ascii.eqb "$" c = false
  | EmptyString => True
  end -> run HOLE k y = None.
Proof.
  intros H. unfold HOLE. rewrite run_grp, run_seq.
  now apply run_lits_mismatch.
Qed.

Lemma name_char_inv (a : ascii) :
  name_char a = true -> is_dot a = true /\ Ascii.eqb "}" a = false.
Proof.
  unfold name_char. intros H. apply andb_prop in H. destruct H as [H1 H2].
  split; [exact H1|].
  apply negb_true_iff in H2. now rewrite Ascii.eqb_sym.
Qed.

Lemma all_name_dot (k : string) :
  all_chars name_char k = true -> all_chars is_dot k = true.
Proof.
  induction k as [|a k IH]; [reflexivity|]. simpl. intros H.
  apply andb_prop in H. destruct H as [Ha Hk].
  destruct (name_char_inv a Ha) as [-> _]. now apply IH.
Qed.

Lemma HOLE_match (k post : string) (p : nat) (cs : list (nat * string)) :
  all_chars name_char k = true ->
  run HOLE Some (MState p ("${" ++ k ++ "}" ++ post) cs)
  = Some (MState (p + 2 + String.length k + 1) post
            (cap_set 2 ("${" ++ k ++ "}") (cap_set 3 k cs))).
Proof.
  intros Hk. unfold HOLE. rewrite run_grp, run_seq.
  cbn [rest pos caps]. rewrite run_lits_prefix, run_seq, run_grp.
  unfold lazy_star. cbn [run rest pos caps groups]. cbn [Nat.add].
  rewrite (repeat_lazy_class is_dot _ _ ("}" ++ post)
             (MState (p + 2 + String.length k + 1) post
                (cap_set 2 ("${" ++ k ++ "}") (cap_set 3 k cs)))).
  - reflexivity.
  - lia.
  - now apply all_name_dot.
  - intros pre1 a pre2 E. cbn [pos rest caps].
    apply run_lit_mismatch. cbn [rest]. rewrite append_cons.
    assert (Ha : name_char a = true).
    { rewrite E, all_chars_append in Hk. apply andb_prop in Hk.
      destruct Hk as [_ Hk]. simpl in Hk. apply andb_prop in Hk. apply Hk. }
    now destruct (name_char_inv a Ha) as [_ ->].
  - cbn [pos rest caps].
    change ("}" ++ post) with (String "}" post). rewrite run_lit_match.
    cbn [pos rest caps]. change (String.length "${") with 2.
    f_equal. f_equal; [lia|].
    replace (p + 2 + String.length k - (p + 2)) with (String.length k)
      by lia.
    change (k ++ String "}" post) with (k ++ "}" ++ post).
    rewrite take_append. f_equal.
    replace (S (p + 2 + String.length k) - p)
      with (String.length ("${" ++ k ++ "}"))
      by (rewrite !length_append; simpl; lia).
    replace ("${" ++ k ++ "}" ++ post) with (("${" ++ k ++ "}") ++ post)
      by (now rewrite !append_assoc).
    apply take_append.
Qed.

Lemma text_char_inv (c : ascii) :
  text_char c = true ->
  Ascii.eqb "$" c = false
  /\ String.eqb (String c "") (String BSLASH "") = false.
Proof.
  unfold text_char, not_dollar. intros H. apply andb_prop in H.
  destruct H as [H1 H2]. apply negb_true_iff in H1, H2. split.
  - now rewrite Ascii.eqb_sym.
  - cbn [String.eqb]. now rewrite H2.
Qed.

Lemma search_from_hole (k post : string) (c : ascii) (pre : string) :
  all_chars name_char k = true ->
  all_chars not_dollar (pre ++ String c "") = true ->
  forall i,
  search_from (Seq PREFIX HOLE) i (pre ++ String c ("${" ++ k ++ "}" ++ post))
  = Some (RMatch (i + String.length pre) (String c ("${" ++ k ++ "}"))
            (hole_caps (String c "") k)).
Proof.
  intros Hk. induction pre as [|a pre IH]; intros Hpre i.
  - rewrite append_nil_l in *.
    pose proof (not_dollar_head c "" Hpre) as Hc.
    cbn [search_from]. rewrite run_seq, run_PREFIX_char.
    2:{ intros cs'. apply HOLE_mismatch. exact Hc. }
    rewrite HOLE_match by exact Hk. cbn [pos caps String.length].
    rewrite Nat.add_0_r. f_equal. f_equal.
    replace (S i + 2 + String.length k + 1 - i)
      with (S (String.length ("${" ++ k ++ "}")))
      by (rewrite !length_append; simpl; lia).
    cbn [take]. f_equal.
    replace ("${" ++ k ++ "}" ++ post) with (("${" ++ k ++ "}") ++ post)
      by (now rewrite !append_assoc).
    apply take_append.
  - rewrite (append_cons a pre) in Hpre |- *.
    pose proof (not_dollar_head a _ Hpre) as Ha'.
    cbn [all_chars] in Hpre. apply andb_prop in Hpre.
    destruct Hpre as [_ Hpre].
    cbn [search_from]. rewrite run_seq, run_PREFIX_char.
    2:{ intros cs'. apply HOLE_mismatch. exact Ha'. }
    rewrite HOLE_mismatch.
    2:{ cbn [rest]. destruct pre as [|b pre].
        - rewrite append_nil_l in Hpre |- *.
          now apply (not_dollar_head c "").
        - rewrite (append_cons b pre) in Hpre |- *.
          now apply (not_dollar_head b (pre ++ String c "")). }
    rewrite IH by exact Hpre. cbn [String.length]. f_equal. f_equal. lia.
Qed.

Lemma search_from_hole_start (k post : string) :
  all_chars name_char k = true ->
  search_from (Seq PREFIX HOLE) 0 ("${" ++ k ++ "}" ++ post)
  = Some (RMatch 0 ("${" ++ k ++ "}") (hole_caps "" k)).
Proof.
  intros Hk.
  change ("${" ++ k ++ "}" ++ post)
    with (String "$" (String "{" (k ++ "}" ++ post))).
  cbn [search_from].
  change (String "$" (String "{" (k ++ "}" ++ post)))
    with ("${" ++ k ++ "}" ++ post).
  rewrite run_seq.
  rewrite (run_PREFIX_start _ _ _ (HOLE_match k post 0 _ Hk)).
  cbn [pos caps]. f_equal. f_equal.
  replace (0 + 2 + String.length k + 1 - 0)
    with (String.length ("${" ++ k ++ "}"))
    by (rewrite !length_append; simpl; lia).
  replace ("${" ++ k ++ "}" ++ post) with (("${" ++ k ++ "}") ++ post)
    by (now rewrite !append_assoc).
  apply take_append.
Qed.

Lemma string_snoc (s : string) :
  s = "" \/ exists p0 c, s = p0 ++ String c "".
Proof.
  induction s as [|a s IH]; [now left|]. right.
  destruct IH as [->|[p0 [c ->]]].
  - now exists "", a.
  - exists (String a p0), c. now rewrite append_cons.
Qed.

Lemma tokenise_loop_match (pattern : regex) (handler : rmatch -> value)
  (fuel : nat) (str : string) (m : rmatch) :
  exec pattern str = Some m -> is_empty (whole m) = false ->
  tokenise_loop (S fuel) pattern handler str
  = match tokenise_loop fuel pattern handler
            (skip (index m + String.length (whole m)) str) with
    | Some parts =>
        Some (take (index m) str :: interpretString (handler m) :: parts)
    | None => None
    end.
Proof.
  intros E Hw. destruct str as [|c str].
  - destruct (exec_split _ _ _ E) as [_ Hlen]. simpl in Hlen.
    destruct (whole m); [discriminate | simpl in Hlen; lia].
  - cbn [tokenise_loop]. rewrite E.
    destruct (whole m); [discriminate | reflexivity].
Qed.

Lemma tokenise_loop_rest (pattern : regex) (handler : rmatch -> value)
  (fuel : nat) (str : string) :
  exec pattern str = None -> String.length str <= fuel ->
  exists parts, tokenise_loop fuel pattern handler str = Some parts
                /\ join "" parts = str.
Proof.
  intros E Hf. destruct str as [|c str].
  - exists []. split; [now destruct fuel | reflexivity].
  - destruct fuel as [|fuel]; [simpl in Hf; lia|].
    exists [String c str]. cbn [tokenise_loop]. now rewrite E.
Qed.

Lemma text_not_dollar (s : string) :
  all_chars text_char s = true -> all_chars not_dollar s = true.
Proof.
  induction s as [|a s IH]; [reflexivity|]. simpl. intros H.
  apply andb_prop in H. destruct H as [Ha Hs]. rewrite (IH Hs).
  unfold text_char in Ha. apply andb_prop in Ha. destruct Ha as [-> _].
  reflexivity.
Qed.

(** A placeholder after the character [c]: the fragments are the text
    before [c], what the handler answers, and the text after. *)
Lemma supplant_after (p0 k post : string) (c : ascii)
  (replacements : value) :
  all_chars not_dollar (p0 ++ String c "") = true ->
  all_chars name_char k = true ->
  all_chars not_dollar post = true ->
  supplant (VStr (p0 ++ String c ("${" ++ k ++ "}" ++ post))) replacements
  = p0
    ++ interpretString
         (supplant_handler
            (if truthy replacements then replacements else VObj 0 [])
            (RMatch (String.length p0) (String c ("${" ++ k ++ "}"))
               (hole_caps (String c "") k)))
    ++ post.
Proof.
  intros Hpre Hk Hpost. unfold supplant, tokenise. cbn [interpretString].
  set (r := if truthy replacements then replacements else VObj 0 []).
  set (W := "${" ++ k ++ "}").
  assert (E : exec PLACEHOLDER (p0 ++ String c ("${" ++ k ++ "}" ++ post))
              = Some (RMatch (0 + String.length p0) (String c W)
                        (hole_caps (String c "") k)))
    by (apply search_from_hole; assumption).
  replace (String.length (p0 ++ String c ("${" ++ k ++ "}" ++ post)))
    with (S (String.length p0 + S (S (String.length k
                                      + S (String.length post)))))
    by (rewrite !length_append; simpl; rewrite !length_append; simpl; lia).
  rewrite (tokenise_loop_match _ _ _ _ _ E eq_refl).
  cbn [index whole Nat.add].
  replace (skip (String.length p0 + String.length (String c W))
             (p0 ++ String c ("${" ++ k ++ "}" ++ post)))
    with post.
  2:{ replace (p0 ++ String c ("${" ++ k ++ "}" ++ post))
        with ((p0 ++ String c W) ++ post)
        by (unfold W;
            now rewrite append_assoc, append_cons, !append_assoc).
      replace (String.length p0 + String.length (String c W))
        with (String.length (p0 ++ String c W))
        by apply length_append.
      now rewrite skip_append. }
  destruct (tokenise_loop_rest PLACEHOLDER (supplant_handler r)
              (String.length p0 + S (S (String.length k
                                        + S (String.length post)))) post
              (PLACEHOLDER_no_dollar post Hpost)) as [parts [-> Hj]];
    [lia|].
  rewrite !join_empty_cons, Hj. now rewrite take_append.
Qed.

Lemma supplant_one (pre k post : string) (replacements : value) :
  all_chars text_char pre = true ->
  all_chars name_char k = true ->
  all_chars not_dollar post = true ->
  supplant (VStr (pre ++ "${" ++ k ++ "}" ++ post)) replacements
  = pre
    ++ (let v := access (if truthy replacements then replacements
                         else VObj 0 []) k in
        if is_string_or_number v then to_string v else "${" ++ k ++ "}")
    ++ post.
Proof.
  intros Hpre Hk Hpost.
  destruct (string_snoc pre) as [->|[p0 [c ->]]].
  - unfold supplant, tokenise. cbn [interpretString].
    set (r := if truthy replacements then replacements else VObj 0 []).
    set (W := "${" ++ k ++ "}").
    rewrite !append_nil_l.
    assert (E : exec PLACEHOLDER ("${" ++ k ++ "}" ++ post)
                = Some (RMatch 0 W (hole_caps "" k)))
      by (apply search_from_hole_start; exact Hk).
    replace (String.length ("${" ++ k ++ "}" ++ post))
      with (S (S (String.length k + S (String.length post))))
      by (rewrite !length_append; simpl; lia).
    rewrite (tokenise_loop_match _ _ _ _ _ E eq_refl).
    cbn [index whole].
    replace (skip (0 + String.length W) ("${" ++ k ++ "}" ++ post))
      with post.
    2:{ replace ("${" ++ k ++ "}" ++ post) with (W ++ post)
          by (unfold W; now rewrite !append_assoc).
        change (0 + String.length W) with (String.length W).
        now rewrite skip_append. }
    destruct (tokenise_loop_rest PLACEHOLDER (supplant_handler r)
                (S (String.length k + S (String.length post))) post
                (PLACEHOLDER_no_dollar post Hpost)) as [parts [-> Hj]];
      [lia|].
    rewrite !join_empty_cons, Hj. cbn [take]. rewrite append_nil_l.
    f_equal.
  - assert (Hc : text_char c = true).
    { rewrite all_chars_append in Hpre. apply andb_prop in Hpre.
      destruct Hpre as [_ Hc]. simpl in Hc. now rewrite andb_true_r in Hc. }
    destruct (text_char_inv c Hc) as [_ Hesc].
    replace ((p0 ++ String c "") ++ "${" ++ k ++ "}" ++ post)
      with (p0 ++ String c ("${" ++ k ++ "}" ++ post))
      by (now rewrite append_assoc).
    rewrite supplant_after; try assumption;
      [|now apply text_not_dollar].
    rewrite append_assoc. f_equal.
    unfold supplant_handler, group, hole_caps.
    cbn [captures cap_get cap_set cap_del filter existsb fst negb orb
         Nat.eqb or_empty].
    rewrite Hesc. cbn [interpretString]. now rewrite append_assoc.
Qed.

Lemma access_nothing (path : string) :
  is_string_or_number (access (VObj 0 []) path) = false.
Proof.
  unfold access. now destruct (stringToPath (VStr path)).
Qed.

(** A placeholder inside plain text is replaced, in place, by the string
    its name resolves to, or by the digits of the number it resolves to
    when that number is an integer of magnitude below 2^53; the text around
    it is kept. *)
Theorem supplant_substitutes (pre k post : string)
  (replacements v : value) :
  all_chars text_char pre = true ->
  all_chars name_char k = true ->
  all_chars not_dollar post = true ->
  truthy replacements = true ->
  access replacements k = v ->
  printed v = true ->
  supplant (VStr (pre ++ "${" ++ k ++ "}" ++ post)) replacements
  = pre ++ to_string v ++ post.
Proof.
  intros Hpre Hk Hpost Ht Hv Hs.
  assert (Hsn : is_string_or_number v = true)
    by (destruct v; try discriminate; reflexivity).
  rewrite supplant_one by assumption. cbv zeta.
  now rewrite Ht, Hv, Hsn.
Qed.

Lemma supplant_substitutes_example :
  let reps := VObj 1 [("user", VObj 2 [("name", VStr "you")])] in
  all_chars text_char "Hello " = true
  /\ all_chars name_char "user.name" = true
  /\ all_chars not_dollar "!" = true
  /\ truthy reps = true
  /\ access reps "user.name" = VStr "you"
  /\ printed (VStr "you") = true
  /\ supplant (VStr "Hello ${user.name}!") reps = "Hello you!".
Proof.
  intros reps. repeat (split; [reflexivity|]).
  apply (supplant_substitutes "Hello " "user.name" "!" reps (VStr "you"));
    reflexivity.
Defined.

(** A placeholder whose name resolves to nothing, or to something that is
    neither a string nor a number, is left in the text as it stands. *)
Theorem supplant_keeps_placeholder (pre k post : string)
  (replacements : value) :
  all_chars text_char pre = true ->
  all_chars name_char k = true ->
  all_chars not_dollar post = true ->
  is_string_or_number (access replacements k) = false ->
  supplant (VStr (pre ++ "${" ++ k ++ "}" ++ post)) replacements
  = pre ++ "${" ++ k ++ "}" ++ post.
Proof.
  intros Hpre Hk Hpost Hs.
  rewrite supplant_one by assumption. cbv zeta.
  destruct (truthy replacements).
  - now rewrite Hs, !append_assoc.
  - now rewrite access_nothing, !append_assoc.
Qed.

Lemma supplant_keeps_placeholder_example :
  let reps := VObj 1 [("world", VArr 2 [])] in
  all_chars text_char "Hello " = true
  /\ all_chars name_char "world" = true
  /\ all_chars not_dollar "" = true
  /\ is_string_or_number (access reps "world") = false
  /\ supplant (VStr "Hello ${world}") reps = "Hello ${world}".
Proof.
  intros reps. repeat (split; [reflexivity|]).
  apply (supplant_keeps_placeholder "Hello " "world" "" reps); reflexivity.
Defined.

(** A backslash before a placeholder keeps the placeholder and drops the
    backslash: nothing is substituted, whatever the replacements hold. *)
Theorem supplant_escaped (pre k post : string) (replacements : value) :
  all_chars not_dollar pre = true ->
  all_chars name_char k = true ->
  all_chars not_dollar post = true ->
  supplant (VStr (pre ++ String BSLASH ("${" ++ k ++ "}" ++ post)))
    replacements
  = pre ++ "${" ++ k ++ "}" ++ post.
Proof.
  intros Hpre Hk Hpost.
  rewrite supplant_after; try assumption.
  - unfold supplant_handler, group, hole_caps.
    cbn [captures cap_get cap_set cap_del filter existsb fst negb orb
         Nat.eqb or_empty].
    rewrite String.eqb_refl. cbn [interpretString].
    now rewrite !append_assoc.
  - rewrite all_chars_append, Hpre. reflexivity.
Qed.

Lemma supplant_escaped_example :
  let reps := VObj 1 [("world", VStr "you")] in
  all_chars not_dollar "Hello " = true
  /\ all_chars name_char "world" = true
  /\ all_chars not_dollar " you" = true
  /\ supplant (VStr ("Hello " ++ String BSLASH "${world} you")) reps
     = "Hello ${world} you".
Proof.
  intros reps. repeat (split; [reflexivity|]).
  apply (supplant_escaped "Hello " "world" " you" reps); reflexivity.
Defined.

(* ===================================================================== *)
(** * Arrays, array-likes and numbers                                     *)
(* ===================================================================== *)

Lemma numeral_prefix_int (d : Decimal.int) :
  numeral_prefix (trim_left (NilZero.string_of_int d)) <> None.
Proof.
  destruct d as [u|u]; destruct u; discriminate.
Qed.

Lemma isNumeric_number (n : Z) : isNumeric (VNum n) = true.
Proof.
  unfold isNumeric, parseFloat. cbn [to_string]. unfold string_of_Z.
  pose proof (numeral_prefix_int (Z.to_int n)) as H.
  destruct (numeral_prefix _); [reflexivity | contradiction].
Qed.

(** An object is array-like exactly when its [length] is in the range of
    array lengths, when that [length] is a number. *)
Theorem isArrayLike_length (r : ref) (ps : list (string * value)) (n : Z) :
  assoc "length" ps = Some (VNum n) ->
  isArrayLike (VObj r ps) = ((0 <=? n)%Z && (n <? 2 ^ 32 - 1)%Z).
Proof.
  intros H. unfold isArrayLike, length_of. cbn [own_property]. rewrite H.
  cbn [is_nullish negb andb is_array orb has_iterator].
  rewrite isNumeric_number, orb_false_r. cbn [andb].
  unfold js_ge, js_lt, less_than. cbn [to_primitive to_number].
  unfold arrayMaxLength. f_equal.
  destruct (Z.ltb_spec n 0), (Z.leb_spec 0 n); try reflexivity; lia.
Qed.

Lemma isArrayLike_length_example :
  assoc "length" [("length", VNum 0)] = Some (VNum 0)
  /\ isArrayLike (VObj 1 [("length", VNum 0)]) = true
  /\ isArrayLike (VObj 1 [("length", VNum (-1))]) = false.
Proof.
  split; [reflexivity|]. split.
  - rewrite (isArrayLike_length 1 [("length", VNum 0)] 0); reflexivity.
  - rewrite (isArrayLike_length 1 [("length", VNum (-1))] (-1)); reflexivity.
Defined.

Lemma length_chars (s : string) : length (chars s) = String.length s.
Proof. induction s as [|a s IH]; simpl; [reflexivity | now rewrite IH]. Qed.

(** A string is array-like, and [util.Array.map] visits it character by
    character, in order, with the index of each character. *)
Theorem arrayMap_string (s : string) :
  isArrayLike (VStr s) = true
  /\ arrayMap (VStr s) (fun value key => (VNum (Z.of_nat key), value))
     = indexed 0 (chars s).
Proof.
  split.
  { unfold isArrayLike. cbn [is_nullish negb is_array has_iterator andb].
    now rewrite orb_true_r. }
  unfold arrayMap.
  change (to_number (length_of (VStr s)))
    with (Some (Z.of_nat (String.length s))).
  cbv iota beta. rewrite Nat2Z.id, <- length_chars.
  etransitivity;
    [|exact (flat_map_indexed (chars s) [] (chars s) eq_refl)].
  apply flat_map_ext. intros i. cbn [own_property].
  now rewrite string_of_nat_not_length, parse_index_string_of_nat.
Qed.

(* ===================================================================== *)
(** * Copying objects and partial application                            *)
(* ===================================================================== *)








Lemma fill_no_gaps (args innerArgs : list value) :
  Forall (fun arg => arg <> VUndef) args ->
  fill args innerArgs = (args, innerArgs).
Proof.
  induction 1 as [|arg args Harg _ IH]; [reflexivity|].
  cbn [fill]. rewrite IH. now destruct arg.
Qed.

(** Without a gap, the curried function receives the arguments given
    first followed by the ones given at the call. *)
Theorem curry_no_gaps {A : Type} (func : list value -> A)
  (args innerArgs : list value) :
  Forall (fun arg => arg <> VUndef) args ->
  curry func args innerArgs = func (args ++ innerArgs)%list.
Proof.
  intros H. unfold curry. now rewrite fill_no_gaps.
Qed.

Lemma curry_no_gaps_example :
  Forall (fun arg => arg <> VUndef) [VNum 5]
  /\ curry (fun l => l) [VNum 5] [VNum 6; VNum 7] = [VNum 5; VNum 6; VNum 7].
Proof.
  assert (H : Forall (fun arg => arg <> VUndef) [VNum 5]).
  { repeat constructor. discriminate. }
  split; [exact H|].
  exact (curry_no_gaps (fun l => l) [VNum 5] [VNum 6; VNum 7] H).
Defined.

(** A gap takes the next argument of the call, whatever that argument is:
    currying with a leading gap is currying the function with its first
    argument supplied. *)
Theorem curry_fills_gap {A : Type} (func : list value -> A)
  (args innerArgs : list value) (x : value) :
  curry func (VUndef :: args) (x :: innerArgs)
  = curry (fun l => func (x :: l)) args innerArgs.
Proof.
  unfold curry. cbn [fill]. now destruct (fill args innerArgs).
Qed.

(* ===================================================================== *)
(** * Branches and their children                                       *)
(* ===================================================================== *)

Lemma concat_results_app (rs1 rs2 : list (result string)) :
  concat_results (rs1 ++ rs2)
  = match concat_results rs1 with
    | Ok s1 => appended s1 (concat_results rs2)
    | Throw e => Throw e
    end.
Proof.
  induction rs1 as [|[s|e] rs1 IH]; cbn [app concat_results].
  - now destruct (concat_results rs2).
  - rewrite IH. destruct (concat_results rs1) as [s1|e]; [|reflexivity].
    cbn [appended]. destruct (concat_results rs2); [|reflexivity].
    cbn [appended]. now rewrite append_assoc.
  - reflexivity.
Qed.

(** Rendering a list of branches is rendering its two halves and joining
    the results: the second half renders what it would render on its own,
    and an error of the first half is the error of the whole. *)
Theorem render_base_app (h : host) (bs1 bs2 : list branch) (st : store)
  (data : loc) :
  data < length st ->
  snd (render_base h (bs1 ++ bs2) st data)
  = match snd (render_base h bs1 st data) with
    | Ok s1 => appended s1 (snd (render_base h bs2 st data))
    | Throw e => Throw e
    end.
Proof.
  intros _. rewrite !(proj2 (render_base_results h _ st data)).
  rewrite map_app. apply concat_results_app.
Qed.

Lemma render_base_app_example :
  let h := with_string "" Object_prototype in
  let st := [VObj 1 [("a", VStr "x")]] in
  0 < length st
  /\ snd (render_base h ([Text "${a}"] ++ [Text "b"]) st 0) = Ok "xb".
Proof.
  intros h st. assert (Hd : 0 < length st) by (simpl; lia).
  split; [exact Hd|].
  exact (render_base_app h [Text "${a}"] [Text "b"] st 0 Hd).
Defined.

(** The flag a truthiness test computes and the flag its negation
    computes are complementary, for every path, operand and data: the
    first is the truthiness of what the path resolves to. *)
Theorem shouldRender_not_complement (path token : string) (data : value) :
  shouldRender (IfSpec None path "truthy" token) data
    = Ok (truthy (access data path))
  /\ shouldRender (IfSpec (Some "!") path "truthy" token) data
     = Ok (negb (truthy (access data path))).
Proof.
  destruct (shouldRender_test (IfSpec None path "truthy" token) data
              (fun d _ => truthy d) eq_refl) as [d [_ ->]].
  destruct (shouldRender_test (IfSpec (Some "!") path "truthy" token) data
              (fun d _ => truthy d) eq_refl) as [d' [_ ->]].
  now split.
Qed.

(** The negation applies to the property, not to the outcome of the test:
    the negated property is a boolean, so the flag of a negated strict
    equality with an operand that is not a boolean is false for every
    data. *)
Theorem negated_equality_is_false (path token : string) (v data : value) :
  decode token = Ok (Literal v) ->
  (forall b, v <> VBool b) ->
  shouldRender (IfSpec (Some "!") path "===" token) data = Ok false.
Proof.
  intros Hd Hv.
  destruct (shouldRender_test (IfSpec (Some "!") path "===" token) data
              strict_eq eq_refl) as [d [Hd' ->]].
  cbn [operand] in Hd'. rewrite Hd in Hd'. injection Hd' as <-.
  cbn [negation is_bang String.eqb Ascii.eqb Bool.eqb].
  destruct v; try reflexivity. now destruct (Hv b).
Qed.

Lemma negated_equality_is_false_example :
  decode "1" = Ok (Literal (VNum 1))
  /\ (forall b, VNum 1 <> VBool b)
  /\ shouldRender (IfSpec (Some "!") "a" "===" "1") (VObj 1 [("a", VNum 0)])
     = Ok false.
Proof.
  assert (Hd : decode "1" = Ok (Literal (VNum 1))) by (vm_compute; reflexivity).
  assert (Hv : forall b, VNum 1 <> VBool b) by discriminate.
  split; [exact Hd|]. split; [exact Hv|].
  exact (negated_equality_is_false "a" "1" (VNum 1)
           (VObj 1 [("a", VNum 0)]) Hd Hv).
Defined.

(** A template that compiles is its texts: the builder holds the root with
    text branches only (or nothing, once an end marker closed the root),
    and rendering replaces the placeholders of each text against the data
    and joins the results, leaving the store as it was. *)
Theorem compiled_template_is_text (h : host) (argument : value) (t : tree)
  (st : store) (data : loc) :
  template h argument = Ok t ->
  t = []
  \/ exists texts,
       t = [Open KBase (map Text texts)]
       /\ tree_render h t st data
          = (st, Ok (join ""
                       (map (fun text =>
                               supplant (VStr text) (load st data))
                          texts))).
Proof.
  intros Ht. apply template_flat in Ht.
  destruct t as [|[[|c|c] bs] [|p parents]]; try discriminate;
    [now left|right].
  destruct (render_texts h bs st data Ht) as [texts [-> Hr]].
  exists texts. split; [reflexivity|]. exact Hr.
Qed.

Lemma compiled_template_is_text_example :
  let h := with_string "<b>${a}</b>" Object_prototype in
  let st := [VObj 1 [("a", VStr "x")]] in
  template h VUndef = Ok [Open KBase [Text "<b>${a}</b>"]]
  /\ tree_render h [Open KBase [Text "<b>${a}</b>"]] st 0
     = (st, Ok "<b>x</b>").
Proof.
  intros h st.
  assert (Ht : template h VUndef = Ok [Open KBase [Text "<b>${a}</b>"]])
    by (vm_compute; reflexivity).
  split; [exact Ht|].
  destruct (compiled_template_is_text h VUndef _ st 0 Ht)
    as [H|[texts [Hshape Hr]]]; [discriminate H|].
  injection Hshape as Hshape. destruct texts as [|text [|text' texts]];
    try discriminate Hshape. injection Hshape as <-.
  rewrite Hr. vm_compute. reflexivity.
Defined.


Lemma all_chars_impl (P Q : ascii -> bool) (s : string) :
  (forall c, P c = true -> Q c = true) ->
  all_chars P s = true -> all_chars Q s = true.
Proof.
  intros HPQ. induction s as [|a s IH]; [reflexivity|].
  cbn [all_chars]. intros [Ha Hs]%andb_true_iff.
  now rewrite (HPQ a Ha), (IH Hs).
Qed.

(* ===================================================================== *)
(** * Operands                                                          *)
(* ===================================================================== *)

Lemma all_any (s : string) : all_chars any_char s = true.
Proof. induction s; [reflexivity | exact IHs]. Qed.

Lemma take_all (s : string) : take (String.length s) s = s.
Proof.
  rewrite <- (append_nil_r s) at 2. apply take_append.
Qed.

(** A token that does not start with a quote matches [QUOTED] with the
    first group out of the match. *)
Lemma QUOTED_bare (c : ascii) (s : string) :
  is_quote c = false ->
  exists m, exec QUOTED (String c s) = Some m /\ group m 1 = None.
Proof.
  intros Hq. set (token := String c s).
  assert (H : run QUOTED Some (MState 0 token [])
              = Some (MState (String.length token) ""
                        (cap_set 2 token []))).
  { unfold QUOTED. cbn [seqs]. rewrite run_seq, run_bol. cbn [pos Nat.eqb].
    rewrite run_seq, run_opt_skip.
    2:{ intros d. rewrite run_grp. cbn [pos rest caps]. unfold token.
        rewrite run_chr.
        change (Ascii.eqb c DQ || Ascii.eqb c "'" || Ascii.eqb c "`")
          with (is_quote c).
        now rewrite Hq. }
    rewrite run_seq. apply run_opt_first. rewrite run_grp, run_plus_class.
    cbn [rest pos caps groups cap_del filter].
    rewrite <- (append_nil_r token) at 2.
    apply repeat_class_max.
    - rewrite append_nil_r. lia.
    - apply all_any.
    - reflexivity.
    - unfold token. simpl. lia.
    - cbn [pos rest caps Nat.add]. unfold token at 1.
      cbn [String.length Nat.eqb]. rewrite Nat.sub_0_r, take_all.
      reflexivity. }
  exists (RMatch 0 (take (String.length token - 0) token) (cap_set 2 token [])).
  split; [|reflexivity].
  unfold exec, token. cbn [search_from]. fold token. now rewrite H.
Qed.

Lemma eqb_head (a c : ascii) (s kw : string) :
  Ascii.eqb a c = false -> String.eqb (String a s) (String c kw) = false.
Proof. intros H. cbn [String.eqb]. now rewrite H. Qed.

Lemma letter_facts (c : ascii) :
  is_word c = true -> is_digit c = false ->
  is_quote c = false /\ is_space c = false
  /\ Ascii.eqb c "-" = false /\ Ascii.eqb c "+" = false.
Proof.
  destruct c as [[] [] [] [] [] [] [] []]; try discriminate;
    repeat split; reflexivity.
Qed.

Lemma isNumeric_letter (c : ascii) (s : string) :
  is_word c = true -> is_digit c = false ->
  isNumeric (VStr (String c s)) = false.
Proof.
  intros Hw Hd. destruct (letter_facts c Hw Hd) as [_ [Hs [Hm Hp]]].
  unfold isNumeric, parseFloat. cbn [to_string trim_left]. rewrite Hs.
  unfold numeral_prefix.
  assert (Hbody : (match String c s with
                   | String "-" s' => (true, s')
                   | String "+" s' => (false, s')
                   | _ => (false, String c s)
                   end) = (false, String c s)).
  { destruct c as [[] [] [] [] [] [] [] []]; try reflexivity; discriminate. }
  rewrite Hbody. cbn [digits_prefix]. now rewrite Hd.
Qed.

(** A token that starts with a letter or an underscore and is not a
    keyword is a path: [decode] defers it, and the test of an [if] branch
    receives what the path resolves to in the data being rendered. *)
Theorem decode_path (c : ascii) (s op : string) (neg : option string)
  (path : string) (data : value) (f : value -> value -> bool) :
  is_word c = true -> is_digit c = false ->
  keyword (String c s) = false ->
  tests op = Some f ->
  decode (String c s) = Ok (Deferred (String c s))
  /\ shouldRender (IfSpec neg path op (String c s)) data
     = Ok (f (if is_bang neg then VBool (negb (truthy (access data path)))
              else access data path)
             (access data (String c s))).
Proof.
  intros Hw Hd Hkw Hf.
  assert (Hdec : decode (String c s) = Ok (Deferred (String c s))).
  { destruct (letter_facts c Hw Hd) as [Hq _].
    destruct (QUOTED_bare c s Hq) as [m [Hm H1]].
    unfold keyword in Hkw.
    apply orb_false_elim in Hkw as [Hkw Ht].
    apply orb_false_elim in Hkw as [Hkw Hfa].
    apply orb_false_elim in Hkw as [Hn Hu].
    unfold decode. rewrite Hn, Hu, Hfa, Ht. cbn [orb].
    rewrite Hm, H1. now rewrite isNumeric_letter. }
  split; [exact Hdec|].
  unfold shouldRender. cbn [operand test negation
                            propertyPath].
  rewrite Hdec. cbn [bind]. now rewrite Hf.
Qed.

Lemma decode_path_example :
  decode "limit" = Ok (Deferred "limit")
  /\ shouldRender (IfSpec None "count" ">" "limit")
       (VObj 1 [("count", VNum 7); ("limit", VNum 5)])
     = Ok true.
Proof.
  exact (decode_path "l" "imit" ">" None "count"
           (VObj 1 [("count", VNum 7); ("limit", VNum 5)]) js_gt
           eq_refl eq_refl eq_refl eq_refl).
Defined.

Lemma digit_not_special (c : ascii) :
  is_digit c = true ->
  is_quote c = false /\ is_space c = false
  /\ (0 <= digit_val c <= 9)%Z
  /\ Ascii.eqb c "n" = false /\ Ascii.eqb c "u" = false
  /\ Ascii.eqb c "f" = false /\ Ascii.eqb c "t" = false.
Proof.
  destruct c as [[] [] [] [] [] [] [] []]; try discriminate;
    repeat split; try reflexivity; vm_compute; discriminate.
Qed.

Lemma rev_string_rev (s : string) :
  forall a b, rev_string a (rev_string b s) = rev_string (s ++ a) b.
Proof.
  induction s as [|c s IH]; intros a b; [reflexivity|].
  cbn [rev_string]. rewrite IH. reflexivity.
Qed.

Lemma rev_string_all (P : ascii -> bool) (s : string) :
  forall acc, all_chars P acc = true -> all_chars P s = true ->
              all_chars P (rev_string acc s) = true.
Proof.
  induction s as [|c s IH]; intros acc Hacc Hs; [exact Hacc|].
  cbn [all_chars] in Hs. apply andb_true_iff in Hs as [Hc Hs].
  cbn [rev_string]. apply IH; [|exact Hs]. cbn [all_chars]. now rewrite Hc.
Qed.

Lemma trim_left_all (s : string) :
  all_chars (fun c => negb (is_space c)) s = true -> trim_left s = s.
Proof.
  destruct s as [|c s]; [reflexivity|]. cbn [all_chars trim_left].
  intros [Hc _]%andb_true_iff. apply negb_true_iff in Hc. now rewrite Hc.
Qed.

Lemma trim_all (s : string) :
  all_chars (fun c => negb (is_space c)) s = true -> trim s = s.
Proof.
  intros H. unfold trim. rewrite (trim_left_all s H).
  rewrite trim_left_all by (now apply rev_string_all).
  now rewrite rev_string_rev, append_nil_r.
Qed.

Lemma digits_prefix_all (s : string) :
  all_chars is_digit s = true -> digits_prefix s = s.
Proof.
  induction s as [|c s IH]; [reflexivity|]. cbn [all_chars digits_prefix].
  intros [Hc Hs]%andb_true_iff. now rewrite Hc, IH.
Qed.

Lemma skip_all (s : string) : skip (String.length s) s = "".
Proof. induction s as [|c s IH]; [reflexivity | exact IH]. Qed.

Lemma digits_val_uint (d : Decimal.uint) :
  forall acc,
  digits_val (Z.of_nat acc) (NilEmpty.string_of_uint d)
  = Z.of_nat (Nat.of_uint_acc d acc).
Proof.
  induction d; intros acc; cbn [NilEmpty.string_of_uint digits_val
                                  Nat.of_uint_acc]; [reflexivity|..];
    rewrite <- IHd; f_equal; rewrite Nat.tail_mul_spec;
    unfold digit_val;
    match goal with
    | |- context [code ?c] =>
        let v := eval vm_compute in (code c) in change (code c) with v
    end; lia.
Qed.

Lemma digits_val_nat (n : nat) :
  digits_val 0 (string_of_nat n) = Z.of_nat n.
Proof.
  rewrite <- (Unsigned.of_to n) at 2. unfold string_of_nat, Nat.of_uint.
  rewrite <- digits_val_uint.
  unfold NilZero.string_of_uint.
  destruct (Nat.to_uint n); reflexivity.
Qed.

Lemma numeral_prefix_nat (n : nat) :
  numeral_prefix (string_of_nat n) = Some (Z.of_nat n, "").
Proof.
  destruct (string_of_nat_digits n) as [Hds Hne].
  pose proof (digits_val_nat n) as Hval.
  destruct (string_of_nat n) as [|c ds] eqn:E; [discriminate|].
  cbn [all_chars] in Hds. pose proof Hds as Hall.
  apply andb_true_iff in Hds as [Hc Hds].
  unfold numeral_prefix.
  assert (Hbody : (match String c ds with
                   | String "-" s' => (true, s')
                   | String "+" s' => (false, s')
                   | _ => (false, String c ds)
                   end) = (false, String c ds)).
  { clear -Hc.
    destruct c as [[] [] [] [] [] [] [] []]; try reflexivity; discriminate. }
  rewrite Hbody, (digits_prefix_all (String c ds) Hall), Hval, skip_all.
  reflexivity.
Qed.

Lemma digits_not_space (s : string) :
  all_chars is_digit s = true ->
  all_chars (fun c => negb (is_space c)) s = true.
Proof.
  apply all_chars_impl. intros c Hc.
  destruct (digit_not_special c Hc) as [_ [Hs _]]. now rewrite Hs.
Qed.

Lemma number_of_numeral (n : nat) :
  isNumeric (VStr (string_of_nat n)) = true
  /\ to_number (VStr (string_of_nat n)) = Some (Z.of_nat n).
Proof.
  destruct (string_of_nat_digits n) as [Hds Hne].
  pose proof (digits_not_space _ Hds) as Hsp.
  assert (Hnum : to_number (VStr (string_of_nat n)) = Some (Z.of_nat n)).
  { cbn [to_number to_primitive]. unfold string_to_number.
    rewrite (trim_all _ Hsp). pose proof (numeral_prefix_nat n) as Hnp.
    destruct (string_of_nat n); [discriminate|]. now rewrite Hnp. }
  split; [|exact Hnum].
  unfold isNumeric, parseFloat, isFinite. cbn [to_string].
  rewrite (trim_left_all _ Hsp), numeral_prefix_nat, Hnum. reflexivity.
Qed.

(** The decimal numeral of a natural number below 2^53 decodes to that
    number, and that number is what the test of an [if] branch receives as
    its operand. *)
Theorem decode_numeral (n : nat) (op : string) (neg : option string)
  (path : string) (data : value) (f : value -> value -> bool) :
  safe (Z.of_nat n) = true ->
  tests op = Some f ->
  decode (string_of_nat n) = Ok (Literal (VNum (Z.of_nat n)))
  /\ shouldRender (IfSpec neg path op (string_of_nat n)) data
     = Ok (f (if is_bang neg then VBool (negb (truthy (access data path)))
              else access data path)
             (VNum (Z.of_nat n))).
Proof.
  intros _ Hf.
  assert (Hdec : decode (string_of_nat n) = Ok (Literal (VNum (Z.of_nat n)))).
  { destruct (string_of_nat_digits n) as [Hds Hne].
    destruct (number_of_numeral n) as [Hnum Hval].
    destruct (string_of_nat n) as [|c ds] eqn:E; [discriminate|].
    cbn [all_chars] in Hds. apply andb_true_iff in Hds as [Hc _].
    destruct (digit_not_special c Hc) as [Hq [_ [_ [Hn [Hu [Hfa Ht]]]]]].
    destruct (QUOTED_bare c ds Hq) as [m [Hm H1]].
    unfold decode.
    rewrite (eqb_head c "n" ds "ull" Hn), (eqb_head c "u" ds "ndefined" Hu),
      (eqb_head c "f" ds "alse" Hfa), (eqb_head c "t" ds "rue" Ht).
    cbn [orb]. now rewrite Hm, H1, Hnum, Hval. }
  split; [exact Hdec|].
  unfold shouldRender. cbn [operand test negation
                            propertyPath].
  rewrite Hdec. cbn [bind]. now rewrite Hf.
Qed.

Lemma decode_numeral_example :
  safe (Z.of_nat 5) = true
  /\ decode "5" = Ok (Literal (VNum 5))
  /\ shouldRender (IfSpec None "count" ">" "5") (VObj 1 [("count", VNum 10)])
     = Ok true.
Proof.
  split; [reflexivity|].
  exact (decode_numeral 5 ">" None "count" (VObj 1 [("count", VNum 10)])
           js_gt eq_refl eq_refl).
Defined.

(* ===================================================================== *)
(** * Parsing the [each] marker                                         *)
(* ===================================================================== *)

Lemma is_name_inv (w : string) :
  is_name w = true ->
  all_chars is_word w = true /\ 1 <= String.length w
  /\ forall tl, stops is_space (w ++ tl) = true.
Proof.
  unfold is_name. intros [Hne Hw]%andb_true_iff.
  destruct w as [|a w]; [discriminate|].
  split; [exact Hw|]. split; [simpl; lia|]. intros tl.
  rewrite append_cons. cbn [stops all_chars] in *.
  apply andb_true_iff in Hw as [Ha _]. now rewrite (word_not_space _ Ha).
Qed.

Lemma is_blank_inv (sp : string) :
  is_blank sp = true ->
  all_chars is_space sp = true /\ 1 <= String.length sp
  /\ forall tl, stops is_word (sp ++ tl) = true.
Proof.
  unfold is_blank. intros [Hne Hs]%andb_true_iff.
  destruct sp as [|a sp]; [discriminate|].
  split; [exact Hs|]. split; [simpl; lia|]. intros tl.
  rewrite append_cons. cbn [stops all_chars] in *.
  apply andb_true_iff in Hs as [Ha _].
  destruct (is_word a) eqn:E; [|reflexivity].
  apply word_not_space in E. congruence.
Qed.

(** A greedy [+] over a class takes the whole run of the class when what
    follows the quantifier accepts the rest. *)
Lemma run_plus_max (P : ascii -> bool) (k : cont) (p : nat)
  (pre suf : string) (c : list (nat * string)) (z : mstate) :
  all_chars P pre = true -> 1 <= String.length pre ->
  stops P suf = true ->
  k (MState (p + String.length pre) suf c) = Some z ->
  run (plus (Chr P)) k (MState p (pre ++ suf) c) = Some z.
Proof.
  intros Hpre Hlen Hsuf Hk. rewrite run_plus_class. cbn [rest].
  apply repeat_class_max; try assumption. lia.
Qed.

Lemma run_grp_plus_max (n : nat) (P : ascii -> bool) (k : cont) (p : nat)
  (pre suf : string) (c : list (nat * string)) (z : mstate) :
  all_chars P pre = true -> 1 <= String.length pre ->
  stops P suf = true ->
  k (MState (p + String.length pre) suf (cap_set n pre c)) = Some z ->
  run (Grp n (plus (Chr P))) k (MState p (pre ++ suf) c) = Some z.
Proof.
  intros Hpre Hlen Hsuf Hk. rewrite run_grp.
  apply run_plus_max; try assumption.
  cbn [pos rest caps].
  replace (p + String.length pre - p) with (String.length pre) by lia.
  now rewrite take_append.
Qed.

(** The optional key group of [EACH_OPEN] has no match where one name is
    followed by the closing brace. *)
Lemma EACH_key_group_fails (sp3 x : string) (d : cont) (p : nat)
  (c : list (nat * string)) :
  is_blank sp3 = true -> is_name x = true ->
  run (Grp 2 (seqs [Chr is_space; Grp 3 (plus (Chr is_word));
                    plus (Chr is_space); lits "to"])) d
    (MState p (sp3 ++ x ++ "}") c) = None.
Proof.
  intros Hsp Hx. destruct (is_name_inv x Hx) as [Hw [_ _]].
  unfold is_blank in Hsp. apply andb_true_iff in Hsp as [Hne Hsp].
  destruct sp3 as [|a sp3]; [discriminate|].
  cbn [all_chars] in Hsp. apply andb_true_iff in Hsp as [Ha Hsp].
  rewrite run_grp. cbn [seqs]. rewrite run_seq, append_cons, run_chr, Ha.
  rewrite run_seq, run_grp, run_plus_class.
  apply repeat_class_none; [cbn [rest]; lia|].
  intros pre suf E Hpre Hlen. cbn [rest] in E.
  destruct sp3 as [|b sp3].
  - rewrite append_nil_l in E.
    destruct (split_class is_word x "}" Hw eq_refl pre suf E Hpre)
      as [x' [Ex ->]].
    rewrite run_seq, run_plus_class.
    apply repeat_class_stops; [|lia]. cbn [rest].
    assert (Hx' : all_chars is_word x' = true).
    { rewrite Ex, all_chars_append in Hw.
      now apply andb_true_iff in Hw as [_ Hw]. }
    destruct x' as [|e x']; [reflexivity|].
    rewrite append_cons. cbn [stops all_chars] in *.
    apply andb_true_iff in Hx' as [He _].
    now rewrite (word_not_space _ He).
  - exfalso. cbn [all_chars] in Hsp. apply andb_true_iff in Hsp as [Hb _].
    destruct pre as [|e pre]; [simpl in Hlen; lia|].
    rewrite !append_cons in E. injection E as <- _.
    cbn [all_chars] in Hpre. apply andb_true_iff in Hpre as [He _].
    apply word_not_space in He. congruence.
Qed.

Lemma exec_at_start (r : regex) (s : string) (z : mstate) :
  run r Some (MState 0 s []) = Some z ->
  exists m, exec r s = Some m /\ captures m = caps z.
Proof.
  intros H. exists (RMatch 0 (take (pos z - 0) s) (caps z)).
  split; [|reflexivity]. unfold exec.
  destruct s; cbn [search_from]; now rewrite H.
Qed.

(** The names [EACH_OPEN] captures in a marker without a key name. *)
Lemma EACH_OPEN_value (sp1 xs sp2 sp3 x : string) :
  is_blank sp1 = true -> is_name xs = true -> is_blank sp2 = true ->
  is_blank sp3 = true -> is_name x = true ->
  each_parts ("${#each" ++ sp1 ++ xs ++ sp2 ++ "as" ++ sp3 ++ x ++ "}")
  = Ok (EachSpec xs None x).
Proof.
  intros H1 Hxs H2 H3 Hx.
  destruct (is_blank_inv sp1 H1) as [Hs1 [Hl1 _]].
  destruct (is_blank_inv sp2 H2) as [Hs2 [Hl2 St2]].
  destruct (is_blank_inv sp3 H3) as [Hs3 [Hl3 _]].
  destruct (is_name_inv xs Hxs) as [Hwxs [Hlxs Stxs]].
  destruct (is_name_inv x Hx) as [Hwx [Hlx Stx]].
  assert (H : exists z,
    run EACH_OPEN Some
      (MState 0 ("${#each" ++ sp1 ++ xs ++ sp2 ++ "as" ++ sp3 ++ x ++ "}") [])
    = Some z
    /\ cap_get 1 (caps z) = Some xs /\ cap_get 3 (caps z) = None
    /\ cap_get 4 (caps z) = Some x).
  { eexists. split.
    - unfold EACH_OPEN. cbn [seqs].
      rewrite run_seq, run_lits_prefix, run_seq.
      apply run_plus_max; [exact Hs1 | exact Hl1 | apply Stxs|].
      rewrite run_seq.
      apply run_grp_plus_max; [exact Hwxs | exact Hlxs | apply St2|].
      rewrite run_seq.
      apply run_plus_max; [exact Hs2 | exact Hl2 | reflexivity|].
      rewrite run_seq, run_lits_prefix, run_seq, run_opt_skip.
      2:{ intros d. cbn [pos rest caps].
          now apply EACH_key_group_fails. }
      rewrite run_seq.
      apply run_plus_max; [exact Hs3 | exact Hl3 | apply Stx|].
      rewrite run_seq.
      apply run_grp_plus_max; [exact Hwx | exact Hlx | reflexivity|].
      apply run_lit_match.
    - repeat split; reflexivity. }
  destruct H as [z [Hz [G1 [G3 G4]]]].
  destruct (exec_at_start _ _ _ Hz) as [m [Hm Hc]].
  unfold each_parts, group. now rewrite Hm, Hc, G1, G3, G4.
Qed.

(** The names [EACH_OPEN] captures in a marker with a key name. *)
Lemma EACH_OPEN_key_value (sp1 xs sp2 : string) (c3 : ascii)
  (k sp4 sp5 v : string) :
  is_blank sp1 = true -> is_name xs = true -> is_blank sp2 = true ->
  is_space c3 = true -> is_name k = true -> is_blank sp4 = true ->
  is_blank sp5 = true -> is_name v = true ->
  each_parts
    ("${#each" ++ sp1 ++ xs ++ sp2 ++ "as"
     ++ String c3 (k ++ sp4 ++ "to" ++ sp5 ++ v ++ "}"))
  = Ok (EachSpec xs (Some k) v).
Proof.
  intros H1 Hxs H2 H3 Hk H4 H5 Hv.
  destruct (is_blank_inv sp1 H1) as [Hs1 [Hl1 _]].
  destruct (is_blank_inv sp2 H2) as [Hs2 [Hl2 _]].
  destruct (is_blank_inv sp4 H4) as [Hs4 [Hl4 _]].
  destruct (is_blank_inv sp5 H5) as [Hs5 [Hl5 _]].
  destruct (is_name_inv xs Hxs) as [Hwxs [Hlxs Stxs]].
  destruct (is_name_inv k Hk) as [Hwk [Hlk _]].
  destruct (is_name_inv v Hv) as [Hwv [Hlv Stv]].
  assert (H : exists z,
    run EACH_OPEN Some
      (MState 0 ("${#each" ++ sp1 ++ xs ++ sp2 ++ "as"
                 ++ String c3 (k ++ sp4 ++ "to" ++ sp5 ++ v ++ "}")) [])
    = Some z
    /\ cap_get 1 (caps z) = Some xs /\ cap_get 3 (caps z) = Some k
    /\ cap_get 4 (caps z) = Some v).
  { eexists. split.
    - unfold EACH_OPEN. cbn [seqs].
      rewrite run_seq, run_lits_prefix, run_seq.
      apply run_plus_max; [exact Hs1 | exact Hl1 | apply Stxs|].
      rewrite run_seq.
      apply run_grp_plus_max;
        [exact Hwxs | exact Hlxs | apply (is_blank_inv sp2 H2)|].
      rewrite run_seq.
      apply run_plus_max; [exact Hs2 | exact Hl2 | reflexivity|].
      rewrite run_seq, run_lits_prefix, run_seq.
      apply run_opt_first. cbn [pos rest caps seqs].
      rewrite run_grp, run_seq, run_chr, H3, run_seq.
      apply run_grp_plus_max;
        [exact Hwk | exact Hlk | apply (is_blank_inv sp4 H4)|].
      rewrite run_seq.
      apply run_plus_max; [exact Hs4 | exact Hl4 | reflexivity|].
      rewrite run_lits_prefix. cbn beta. cbn [pos rest caps].
      match goal with
      | |- (if ?b then _ else _) = _ =>
          replace b with false by (symmetry; apply Nat.eqb_neq; lia)
      end.
      rewrite run_seq.
      apply run_plus_max; [exact Hs5 | exact Hl5 | apply Stv|].
      rewrite run_seq.
      apply run_grp_plus_max; [exact Hwv | exact Hlv | reflexivity|].
      apply run_lit_match.
    - repeat split; reflexivity. }
  destruct H as [z [Hz [G1 [G3 G4]]]].
  destruct (exec_at_start _ _ _ Hz) as [m [Hm Hc]].
  unfold each_parts, group. now rewrite Hm, Hc, G1, G3, G4.
Qed.

(** Of an [each] marker with a collection name and a value name,
    separated by white space around [as], makeEachBranch reads these two
    names and no key name; it then calls [util.Object.assign], and
    throws. *)
Theorem each_parts_value (sp1 xs sp2 sp3 x : string) :
  is_blank sp1 = true -> is_name xs = true -> is_blank sp2 = true ->
  is_blank sp3 = true -> is_name x = true ->
  let marker := "${#each" ++ sp1 ++ xs ++ sp2 ++ "as" ++ sp3 ++ x ++ "}" in
  each_parts marker = Ok (EachSpec xs None x)
  /\ makeEachBranch marker
     = Throw (TypeError "util.Object.assign is not a function").
Proof.
  intros H1 H2 H3 H4 H5 marker.
  pose proof (EACH_OPEN_value sp1 xs sp2 sp3 x H1 H2 H3 H4 H5) as H.
  fold marker in H. split; [exact H|].
  unfold makeEachBranch. now rewrite H.
Qed.

Lemma each_parts_value_example :
  each_parts "${#each items as item}" = Ok (EachSpec "items" None "item")
  /\ makeEachBranch "${#each items as item}"
     = Throw (TypeError "util.Object.assign is not a function").
Proof.
  exact (each_parts_value " " "items" " " " " "item"
           eq_refl eq_refl eq_refl eq_refl eq_refl).
Defined.

(** Of an [each] marker with a key name and a value name around [to],
    makeEachBranch reads the three names, when exactly one white space
    character separates [as] from the key name; it then calls
    [util.Object.assign], and throws. *)
Theorem each_parts_key_value (sp1 xs sp2 : string) (c3 : ascii)
  (k sp4 sp5 v : string) :
  is_blank sp1 = true -> is_name xs = true -> is_blank sp2 = true ->
  is_space c3 = true -> is_name k = true -> is_blank sp4 = true ->
  is_blank sp5 = true -> is_name v = true ->
  let marker := "${#each" ++ sp1 ++ xs ++ sp2 ++ "as"
                ++ String c3 (k ++ sp4 ++ "to" ++ sp5 ++ v ++ "}") in
  each_parts marker = Ok (EachSpec xs (Some k) v)
  /\ makeEachBranch marker
     = Throw (TypeError "util.Object.assign is not a function").
Proof.
  intros H1 H2 H3 H4 H5 H6 H7 H8 marker.
  pose proof (EACH_OPEN_key_value sp1 xs sp2 c3 k sp4 sp5 v
                H1 H2 H3 H4 H5 H6 H7 H8) as H.
  fold marker in H. split; [exact H|].
  unfold makeEachBranch. now rewrite H.
Qed.

Lemma each_parts_key_value_example :
  each_parts "${#each items as k to v}"
  = Ok (EachSpec "items" (Some "k") "v")
  /\ makeEachBranch "${#each items as k to v}"
     = Throw (TypeError "util.Object.assign is not a function").
Proof.
  exact (each_parts_key_value " " "items" " " " " "k" " " " " "v"
           eq_refl eq_refl eq_refl eq_refl eq_refl eq_refl eq_refl eq_refl).
Defined.

(* ===================================================================== *)
(** * Parsing the [if] marker                                           *)
(* ===================================================================== *)

(** A greedy class quantifier that ran to the end of the input gives back
    its last character when what follows refuses the end and accepts that
    character. *)
Lemma repeat_class_last (P : ascii -> bool) (k : cont)
  (c : list (nat * string)) (qc : ascii) (z : mstate) (body : string) :
  forall fuel lo p,
  String.length body + 1 < fuel -> lo <= String.length body ->
  all_chars P body = true -> P qc = true ->
  k (MState (p + String.length body + 1) "" c) = None ->
  k (MState (p + String.length body) (String qc "") c) = Some z ->
  repeat (run (Chr P)) [] true fuel lo None k
    (MState p (body ++ String qc "") c) = Some z.
Proof.
  induction body as [|a body IH]; intros fuel lo p Hf Hlo Hb Hq Hend Hlast;
    (destruct fuel as [|fuel]; [simpl in Hf; lia|]).
  - simpl in Hlo. assert (lo = 0) by lia. subst lo.
    rewrite append_nil_l, repeat_class_step. cbv zeta. rewrite Hq.
    cbn [Nat.eqb negb Nat.pred].
    destruct fuel as [|fuel]; [simpl in Hf; lia|].
    rewrite repeat_class_empty. cbn [Nat.eqb negb].
    simpl in Hend, Hlast. rewrite Nat.add_0_r in Hend, Hlast.
    rewrite Nat.add_1_r in Hend. now rewrite Hend.
  - rewrite append_cons, repeat_class_step. cbv zeta.
    cbn [all_chars] in Hb. apply andb_true_iff in Hb as [Ha Hb]. rewrite Ha.
    rewrite (IH fuel (Nat.pred lo) (S p)).
    + now destruct (negb (Nat.eqb lo 0)).
    + simpl in Hf. lia.
    + simpl in Hlo. lia.
    + exact Hb.
    + exact Hq.
    + simpl in Hend. now replace (S p + String.length body + 1)
        with (p + S (String.length body) + 1) by lia.
    + simpl in Hlast. now replace (S p + String.length body)
        with (p + S (String.length body)) by lia.
Qed.

Lemma run_grp_plus_last (n : nat) (P : ascii -> bool) (k : cont) (p : nat)
  (body : string) (qc : ascii) (c : list (nat * string)) (z : mstate) :
  all_chars P body = true -> 1 <= String.length body -> P qc = true ->
  (forall cs, k (MState (p + String.length body + 1) "" cs) = None) ->
  k (MState (p + String.length body) (String qc "") (cap_set n body c))
    = Some z ->
  run (Grp n (plus (Chr P))) k (MState p (body ++ String qc "") c) = Some z.
Proof.
  intros Hb Hlen Hq Hend Hlast. rewrite run_grp, run_plus_class.
  cbn [rest]. apply repeat_class_last; try assumption.
  - rewrite length_append. simpl. lia.
  - cbn [pos rest caps]. apply Hend.
  - cbn [pos rest caps].
    replace (p + String.length body - p) with (String.length body) by lia.
    now rewrite take_append.
Qed.

Lemma run_star_max (P : ascii -> bool) (k : cont) (p : nat)
  (pre suf : string) (c : list (nat * string)) (z : mstate) :
  all_chars P pre = true -> stops P suf = true ->
  k (MState (p + String.length pre) suf c) = Some z ->
  run (star (Chr P)) k (MState p (pre ++ suf) c) = Some z.
Proof.
  intros Hpre Hsuf Hk.
  change (run (star (Chr P)) k (MState p (pre ++ suf) c))
    with (repeat (run (Chr P)) [] true
            (S (0 + String.length (pre ++ suf))) 0 None k
            (MState p (pre ++ suf) c)).
  apply repeat_class_max; try assumption; lia.
Qed.

(** One turn of a greedy class quantifier with a maximum. *)
Lemma repeat_bounded_step (P : ascii -> bool) (k : cont)
  (c : list (nat * string)) (a : ascii) (s : string) (fuel lo h p : nat) :
  repeat (run (Chr P)) [] true (S fuel) lo (Some (S h)) k
    (MState p (String a s) c)
  = let next :=
      if P a then
        repeat (run (Chr P)) [] true fuel (Nat.pred lo) (Some h) k
          (MState (S p) s c)
      else None in
    if negb (Nat.eqb lo 0) then next
    else match next with
         | Some z => Some z
         | None => k (MState p (String a s) c)
         end.
Proof.
  cbn [repeat max_is_zero run rest pos caps dec_max Nat.pred].
  rewrite cap_del_nil.
  replace (Nat.eqb (S p) p) with false
    by (symmetry; apply Nat.eqb_neq; lia).
  rewrite andb_false_r. reflexivity.
Qed.

(** A greedy class quantifier with a maximum takes the whole run of the
    class when the run is within the maximum and what follows accepts the
    rest. *)
Lemma repeat_bounded_max (P : ascii -> bool) (k : cont)
  (c : list (nat * string)) (suf : string) (z : mstate) (pre : string) :
  forall fuel lo h p,
  String.length pre < fuel ->
  all_chars P pre = true -> stops P suf = true ->
  lo <= String.length pre -> String.length pre <= h ->
  k (MState (p + String.length pre) suf c) = Some z ->
  repeat (run (Chr P)) [] true fuel lo (Some h) k (MState p (pre ++ suf) c)
  = Some z.
Proof.
  induction pre as [|a pre IH]; intros fuel lo h p Hf Hpre Hsuf Hlo Hh Hk;
    (destruct fuel as [|fuel]; [simpl in Hf; lia|]).
  - simpl in Hlo. assert (lo = 0) by lia. subst lo.
    rewrite append_nil_l. simpl in Hk. rewrite Nat.add_0_r in Hk.
    destruct h as [|h]; [exact Hk|].
    destruct suf as [|b suf].
    + cbn [repeat max_is_zero Nat.eqb negb run rest]. exact Hk.
    + rewrite repeat_bounded_step. cbv zeta. simpl in Hsuf.
      apply negb_true_iff in Hsuf. now rewrite Hsuf.
  - destruct h as [|h]; [simpl in Hh; lia|].
    rewrite append_cons, repeat_bounded_step. cbv zeta.
    simpl in Hpre. apply andb_prop in Hpre. destruct Hpre as [Ha Hpre].
    rewrite Ha, (IH fuel (Nat.pred lo) h (S p)).
    + now destruct (negb (Nat.eqb lo 0)).
    + simpl in Hf. lia.
    + exact Hpre.
    + exact Hsuf.
    + simpl in Hlo. lia.
    + simpl in Hh. lia.
    + simpl in Hk. now replace (S p + String.length pre)
        with (p + S (String.length pre)) by lia.
Qed.

Lemma run_grp_bounded_max (n lo h : nat) (P : ascii -> bool) (k : cont)
  (p : nat) (pre suf : string) (c : list (nat * string)) (z : mstate) :
  all_chars P pre = true -> stops P suf = true ->
  lo <= String.length pre -> String.length pre <= h ->
  k (MState (p + String.length pre) suf (cap_set n pre c)) = Some z ->
  run (Grp n (Rep true lo (Some h) (Chr P))) k (MState p (pre ++ suf) c)
  = Some z.
Proof.
  intros Hpre Hsuf Hlo Hh Hk. rewrite run_grp.
  change (run (Rep true lo (Some h) (Chr P)) ?k' ?x)
    with (repeat (run (Chr P)) [] true
            (S (lo + String.length (rest x))) lo (Some h) k' x).
  cbn [rest]. apply repeat_bounded_max; try assumption.
  - rewrite length_append. lia.
  - cbn [pos rest caps].
    replace (p + String.length pre - p) with (String.length pre) by lia.
    now rewrite take_append.
Qed.


Lemma is_token_inv (t : string) :
  is_token t = true ->
  all_chars nonblank t = true /\ 1 <= String.length t
  /\ forall tl, stops is_space (t ++ tl) = true.
Proof.
  unfold is_token. intros [Hne Ht]%andb_true_iff.
  destruct t as [|a t]; [discriminate|].
  split; [exact Ht|]. split; [simpl; lia|]. intros tl.
  rewrite append_cons. cbn [stops all_chars] in *.
  now apply andb_true_iff in Ht as [Ha _].
Qed.

Lemma blank_stops (sp tl : string) :
  is_blank sp = true ->
  all_chars is_space sp = true /\ 1 <= String.length sp
  /\ stops nonblank (sp ++ tl) = true.
Proof.
  unfold is_blank. intros [Hne Hs]%andb_true_iff.
  destruct sp as [|a sp]; [discriminate|].
  split; [exact Hs|]. split; [simpl; lia|].
  rewrite append_cons. cbn [stops all_chars] in *.
  apply andb_true_iff in Hs as [Ha _]. unfold nonblank. now rewrite Ha.
Qed.

(** The comparison group of [IF_OPEN] has no match at the closing brace or
    at the end of the marker. *)
Lemma IF_test_group_fails (d : cont) (p : nat) (c : list (nat * string)) :
  let test_group :=
    Grp 3 (seqs [star (Chr is_space);
                 Grp 4 (Rep true 1 (Some 3) (Chr (one_of "<>!=")));
                 star (Chr is_space);
                 Grp 5 (plus (Chr (fun c => negb (is_space c))))]) in
  run test_group d (MState p "}" c) = None
  /\ run test_group d (MState p "" c) = None.
Proof. split; reflexivity. Qed.

Lemma IF_truthy_tail (p : nat) (c : list (nat * string)) :
  let tail :=
    Seq (opt (Grp 3 (seqs [star (Chr is_space);
                 Grp 4 (Rep true 1 (Some 3) (Chr (one_of "<>!=")));
                 star (Chr is_space);
                 Grp 5 (plus (Chr (fun c => negb (is_space c))))])))
        (lit "}") in
  run tail Some (MState p "}" c) = Some (MState (S p) "" c)
  /\ run tail Some (MState p "" c) = None.
Proof.
  cbv zeta. split.
  - rewrite run_seq, run_opt_skip; [apply run_lit_match|].
    intros d. apply IF_test_group_fails.
  - rewrite run_seq, run_opt_skip; [reflexivity|].
    intros d. apply IF_test_group_fails.
Qed.

(** What [IF_OPEN] captures in a marker that holds one token. *)
Lemma IF_OPEN_truthy (sp path : string) :
  is_blank sp = true -> is_token path = true ->
  stops (Ascii.eqb "!") path = true ->
  if_parts ("${#if" ++ sp ++ path ++ "}")
    = Ok (IfSpec None path "truthy" "")
  /\ if_parts ("${#if" ++ sp ++ "!" ++ path ++ "}")
     = Ok (IfSpec (Some "!") path "truthy" "").
Proof.
  intros Hsp Hp Hbang.
  destruct (is_token_inv path Hp) as [Hall [Hlen Hst]].
  assert (Hplain : exists z,
    run IF_OPEN Some (MState 0 ("${#if" ++ sp ++ path ++ "}") []) = Some z
    /\ caps z = cap_set 2 path []).
  { eexists. split.
    - unfold IF_OPEN. cbn [seqs].
      rewrite run_seq, run_lits_prefix, run_seq.
      apply run_plus_max;
        [apply (blank_stops sp "" Hsp) | apply (blank_stops sp "" Hsp)
        | apply Hst |].
      rewrite run_seq, run_opt_skip.
      2:{ intros d. rewrite run_grp. apply run_lit_mismatch. cbn [rest].
          destruct path as [|a path]; [discriminate|].
          rewrite append_cons. cbn [stops] in Hbang.
          now apply negb_true_iff in Hbang. }
      rewrite run_seq.
      apply (run_grp_plus_last 2 (fun c => negb (is_space c)));
        [exact Hall | exact Hlen | reflexivity | |].
      + intros cs. apply IF_truthy_tail.
      + apply IF_truthy_tail.
    - reflexivity. }
  assert (Hneg : exists z,
    run IF_OPEN Some (MState 0 ("${#if" ++ sp ++ "!" ++ path ++ "}") [])
    = Some z
    /\ caps z = cap_set 2 path (cap_set 1 "!" [])).
  { eexists. split.
    - unfold IF_OPEN. cbn [seqs].
      rewrite run_seq, run_lits_prefix, run_seq.
      apply run_plus_max;
        [apply (blank_stops sp "" Hsp) | apply (blank_stops sp "" Hsp)
        | reflexivity |].
      rewrite run_seq. apply run_opt_first.
      cbn [pos rest caps groups cap_del filter]. rewrite run_grp.
      change ("!" ++ path ++ "}") with (String "!" (path ++ "}")).
      rewrite run_lit_match. cbn [pos rest caps].
      match goal with
      | |- (if ?b then _ else _) = _ =>
          replace b with false by (symmetry; apply Nat.eqb_neq; lia)
      end.
      rewrite run_seq.
      apply (run_grp_plus_last 2 (fun c => negb (is_space c)));
        [exact Hall | exact Hlen | reflexivity | |].
      + intros cs. apply IF_truthy_tail.
      + apply IF_truthy_tail.
    - cbn [caps]. f_equal. f_equal.
      replace (S _ - _) with 1 by lia. reflexivity. }
  destruct Hplain as [z [Hz Hc]]. destruct Hneg as [z' [Hz' Hc']].
  destruct (exec_at_start _ _ _ Hz) as [m [Hm Hcm]].
  destruct (exec_at_start _ _ _ Hz') as [m' [Hm' Hcm']].
  unfold if_parts, group. rewrite Hm, Hm', Hcm, Hcm', Hc, Hc'.
  now split.
Qed.

Lemma operator_facts (a : ascii) :
  (operator a = true -> is_space a = false)
  /\ (is_space a = true -> operator a = false).
Proof.
  destruct a as [[] [] [] [] [] [] [] []]; split; intros H;
    try reflexivity; discriminate.
Qed.

(** What [IF_OPEN] captures in a marker with an operator and an operand. *)
Lemma IF_OPEN_test (sp path sp2 op sp3 v : string) :
  is_blank sp = true -> is_token path = true ->
  stops (Ascii.eqb "!") path = true ->
  is_blank sp2 = true ->
  all_chars operator op = true -> 1 <= String.length op <= 3 ->
  all_chars is_space sp3 = true ->
  is_token v = true -> stops operator v = true ->
  if_parts ("${#if" ++ sp ++ path ++ sp2 ++ op ++ sp3 ++ v ++ "}")
  = Ok (IfSpec None path op v).
Proof.
  intros Hsp Hp Hbang Hsp2 Hop Hlen Hsp3 Hv Hvop.
  destruct (is_token_inv path Hp) as [Hall [Hlp Hst]].
  destruct (is_token_inv v Hv) as [Hallv [Hlv Hstv]].
  assert (Hop_stop : stops is_space (op ++ sp3 ++ v ++ "}") = true).
  { destruct op as [|a op]; [simpl in Hlen; lia|].
    rewrite append_cons. cbn [stops all_chars] in *.
    apply andb_true_iff in Hop as [Ha _].
    now rewrite (proj1 (operator_facts a) Ha). }
  assert (Hsp3_stop : stops operator (sp3 ++ v ++ "}") = true).
  { destruct sp3 as [|a sp3].
    - rewrite append_nil_l. destruct v as [|b v]; [discriminate|].
      exact Hvop.
    - rewrite append_cons. cbn [stops all_chars] in *.
      apply andb_true_iff in Hsp3 as [Ha _].
      now rewrite (proj2 (operator_facts a) Ha). }
  assert (H : exists z,
    run IF_OPEN Some
      (MState 0 ("${#if" ++ sp ++ path ++ sp2 ++ op ++ sp3 ++ v ++ "}") [])
    = Some z
    /\ cap_get 1 (caps z) = None /\ cap_get 2 (caps z) = Some path
    /\ cap_get 4 (caps z) = Some op /\ cap_get 5 (caps z) = Some v).
  { eexists. split.
    - unfold IF_OPEN. cbn [seqs].
      rewrite run_seq, run_lits_prefix, run_seq.
      apply run_plus_max;
        [apply (blank_stops sp "" Hsp) | apply (blank_stops sp "" Hsp)
        | apply Hst |].
      rewrite run_seq, run_opt_skip.
      2:{ intros d. rewrite run_grp. apply run_lit_mismatch. cbn [rest].
          destruct path as [|a path]; [discriminate|].
          rewrite append_cons. cbn [stops] in Hbang.
          now apply negb_true_iff in Hbang. }
      rewrite run_seq.
      apply (run_grp_plus_max 2 (fun c => negb (is_space c)));
        [exact Hall | exact Hlp | apply (blank_stops sp2 _ Hsp2) |].
      rewrite run_seq. apply run_opt_first. cbn [pos rest caps].
      rewrite run_grp. cbn [seqs]. rewrite run_seq.
      apply run_star_max;
        [apply (blank_stops sp2 "" Hsp2) | exact Hop_stop |].
      rewrite run_seq.
      apply (run_grp_bounded_max 4 1 3 (one_of "<>!="));
        [exact Hop | exact Hsp3_stop | lia | lia |].
      rewrite run_seq.
      apply run_star_max; [exact Hsp3 | apply Hstv |].
      apply (run_grp_plus_last 5 (fun c => negb (is_space c)));
        [exact Hallv | exact Hlv | reflexivity | |].
      + intros cs. cbn beta. cbn [pos rest caps].
        match goal with
        | |- (if ?b then _ else _) = _ => destruct b
        end; reflexivity.
      + cbn beta. cbn [pos rest caps].
        match goal with
        | |- (if ?b then _ else _) = _ =>
            replace b with false by (symmetry; apply Nat.eqb_neq; lia)
        end.
        apply run_lit_match.
    - repeat split; reflexivity. }
  destruct H as [z [Hz [G1 [G2 [G4 G5]]]]].
  destruct (exec_at_start _ _ _ Hz) as [m [Hm Hc]].
  unfold if_parts, group. rewrite Hm, Hc, G1, G2, G4, G5.
  cbn [or_empty]. destruct op; [simpl in Hlen; lia | reflexivity].
Qed.

(** Of an [if] marker that holds one token, makeIfBranch reads a
    truthiness test of that token, taken whole as the path, comparison
    characters included: an operator is recognised only after white
    space.  A leading [!] is the negation.  It then calls
    [util.Object.assign], and throws. *)
Theorem if_parts_truthy (sp path : string) :
  is_blank sp = true -> is_token path = true ->
  stops (Ascii.eqb "!") path = true ->
  let marker := "${#if" ++ sp ++ path ++ "}" in
  let negated := "${#if" ++ sp ++ "!" ++ path ++ "}" in
  if_parts marker = Ok (IfSpec None path "truthy" "")
  /\ if_parts negated = Ok (IfSpec (Some "!") path "truthy" "")
  /\ makeIfBranch marker
     = Throw (TypeError "util.Object.assign is not a function")
  /\ makeIfBranch negated
     = Throw (TypeError "util.Object.assign is not a function").
Proof.
  intros H1 H2 H3 marker negated.
  destruct (IF_OPEN_truthy sp path H1 H2 H3) as [Hm Hn].
  fold marker in Hm. fold negated in Hn.
  split; [exact Hm|]. split; [exact Hn|].
  unfold makeIfBranch. now rewrite Hm, Hn.
Qed.

Lemma if_parts_truthy_example :
  if_parts "${#if a>5}" = Ok (IfSpec None "a>5" "truthy" "")
  /\ if_parts "${#if !a>5}" = Ok (IfSpec (Some "!") "a>5" "truthy" "")
  /\ makeIfBranch "${#if a>5}"
     = Throw (TypeError "util.Object.assign is not a function")
  /\ makeIfBranch "${#if !a>5}"
     = Throw (TypeError "util.Object.assign is not a function").
Proof.
  exact (if_parts_truthy " " "a>5" eq_refl eq_refl eq_refl).
Defined.

(** Of an [if] marker with a path, white space, one to three comparison
    characters and an operand, makeIfBranch reads the path, the operator
    as written and the operand as written; it then calls
    [util.Object.assign], and throws. *)
Theorem if_parts_test (sp path sp2 op sp3 v : string) :
  is_blank sp = true -> is_token path = true ->
  stops (Ascii.eqb "!") path = true ->
  is_blank sp2 = true ->
  all_chars operator op = true -> 1 <= String.length op <= 3 ->
  all_chars is_space sp3 = true ->
  is_token v = true -> stops operator v = true ->
  let marker := "${#if" ++ sp ++ path ++ sp2 ++ op ++ sp3 ++ v ++ "}" in
  if_parts marker = Ok (IfSpec None path op v)
  /\ makeIfBranch marker
     = Throw (TypeError "util.Object.assign is not a function").
Proof.
  intros H1 H2 H3 H4 H5 H6 H7 H8 H9 marker.
  pose proof (IF_OPEN_test sp path sp2 op sp3 v H1 H2 H3 H4 H5 H6 H7 H8 H9)
    as H.
  fold marker in H. split; [exact H|].
  unfold makeIfBranch. now rewrite H.
Qed.

Lemma if_parts_test_example :
  if_parts "${#if count >= 5}" = Ok (IfSpec None "count" ">=" "5")
  /\ makeIfBranch "${#if count >= 5}"
     = Throw (TypeError "util.Object.assign is not a function").
Proof.
  refine (if_parts_test " " "count" " " ">=" " " "5"
            eq_refl eq_refl eq_refl eq_refl eq_refl _ eq_refl eq_refl
            eq_refl).
  simpl. lia.
Defined.
